(** * Worker AI chat extension: the agent loop, its directive parser and
    its workspace gateway

    A shallow embedding of [ChatViewProvider] (the provider with the
    [restore_file] and [replace_lines] tools): the regular expressions of
    [_handleMessage] and [_replaceLines], the six gateway methods, the backup
    helper and the bounded agent loop, followed by the properties of the
    specification that were checked against them.

    Modelling conventions.
    - A JavaScript string is a [string]; a character stands for one code
      unit (code units 0..255).
    - The filesystem behind [vscode.workspace.fs] is a finite map from
      normalised paths (segment lists, relative to the workspace root) to
      the text of regular files.  [TextEncoder]/[TextDecoder] are the
      identity on such text.  Folders are implicit: a folder exists when a
      file lies under it (there are no empty folders), and the workspace
      root and its ancestors always exist.
    - Every call that leaves the process (filesystem, shell, editor) is
      recorded in a trace, so that "no I/O" is a statement about the trace.
    - The clock, the shell, the language model, the collation of the host
      and the argument checks of [child_process.exec] are oracles gathered
      in an environment record. *)

From Stdlib Require Import String Ascii List Arith Lia Bool.
From stdpp Require Import gmap strings list pretty.

Open Scope string_scope.

(* ===================================================================== *)
(** ** JavaScript string primitives *)
(* ===================================================================== *)

Module Js.

(** The double quote, written by code so that no literal has to escape it. *)
Definition dquote : ascii := ascii_of_nat 34.
Definition backslash : ascii := ascii_of_nat 92.
Definition dq : string := String dquote "".

(** [strip_prefix p s]: what follows [p] when [s] starts with [p]. *)
Fixpoint strip_prefix (p s : string) : option string :=
  match p, s with
  | EmptyString, _ => Some s
  | String a p', String b s' =>
      if Ascii.eqb a b then strip_prefix p' s' else None
  | String _ _, EmptyString => None
  end.

(** [String.prototype.startsWith]. *)
Definition startsWith (s p : string) : bool :=
  match strip_prefix p s with Some _ => true | None => false end.

(** [find p s]: the first occurrence of [p] in [s], as the text before it
    and the text after it ([String.prototype.indexOf]). *)
Fixpoint find (p s : string) : option (string * string) :=
  match strip_prefix p s with
  | Some r => Some ("", r)
  | None =>
      match s with
      | EmptyString => None
      | String c s' =>
          match find p s' with
          | Some (b, a) => Some (String c b, a)
          | None => None
          end
      end
  end.

(** [String.prototype.includes]. *)
Definition includes (s p : string) : bool :=
  match find p s with Some _ => true | None => false end.

(** [GetSubstitution] of ECMAScript for a string pattern (no capture
    groups, no named groups): in the replacement text [$$] stands for a
    dollar sign, [$&] for the matched text, [$`] for the text before the
    match and [$'] for the text after it; every other character, and a
    dollar sign followed by anything else, is copied. *)
Fixpoint getSubstitution (matched before after template : string) : string :=
  match template with
  | EmptyString => EmptyString
  | String c t =>
      if Ascii.eqb c "$" then
        match t with
        | EmptyString => String c EmptyString
        | String d t' =>
            if Ascii.eqb d "$" then
              String "$" (getSubstitution matched before after t')
            else if Ascii.eqb d "&" then
              matched ++ getSubstitution matched before after t'
            else if Ascii.eqb d "`" then
              before ++ getSubstitution matched before after t'
            else if Ascii.eqb d "'" then
              after ++ getSubstitution matched before after t'
            else String c (getSubstitution matched before after t)
        end
      else String c (getSubstitution matched before after t)
  end.

(** [s.replace(search, replacement)] with a string pattern: the first
    occurrence only, the replacement text expanded by [getSubstitution]. *)
Definition replace (s search replacement : string) : string :=
  match find search s with
  | None => s
  | Some (before, after) =>
      before ++ getSubstitution search before after replacement ++ after
  end.

(** [s.replace(/[...]/g, c)] for a one-character class: a map over the
    code units. *)
Fixpoint map_chars (f : ascii -> ascii) (s : string) : string :=
  match s with
  | EmptyString => EmptyString
  | String c s' => String (f c) (map_chars f s')
  end.

(** White space and line terminators of [String.prototype.trim] among the
    code units 0..255: TAB, LF, VT, FF, CR, SP and NBSP. *)
Definition is_space (c : ascii) : bool :=
  match nat_of_ascii c with
  | 9 | 10 | 11 | 12 | 13 | 32 | 160 => true
  | _ => false
  end.

Fixpoint trimStart (s : string) : string :=
  match s with
  | EmptyString => EmptyString
  | String c s' => if is_space c then trimStart s' else s
  end.

Fixpoint trimEnd (s : string) : string :=
  match s with
  | EmptyString => EmptyString
  | String c s' =>
      match trimEnd s' with
      | EmptyString => if is_space c then EmptyString else String c EmptyString
      | t => String c t
      end
  end.

Definition trim (s : string) : string := trimEnd (trimStart s).

(** [s.split(sep)] for a one-character separator. *)
Fixpoint split_on (sep : ascii) (s : string) : list string :=
  match s with
  | EmptyString => [EmptyString]
  | String c s' =>
      if Ascii.eqb c sep then EmptyString :: split_on sep s'
      else match split_on sep s' with
           | h :: t => String c h :: t
           | [] => [String c EmptyString]
           end
  end.

(** [Array.prototype.join]. *)
Definition join (sep : string) (l : list string) : string := String.concat sep l.

(** [Array.prototype.sort(cmp)]: a stable insertion sort; [cmp x y = Gt]
    says that [x] goes after [y].  The sort of the engine is stable too,
    and gives the same array whenever [cmp] is a consistent comparator;
    with another [cmp] the order of the result is left to the engine. *)
Fixpoint insert_by {A} (cmp : A -> A -> comparison) (x : A) (l : list A) : list A :=
  match l with
  | [] => [x]
  | y :: l' =>
      match cmp x y with
      | Gt => y :: insert_by cmp x l'
      | _ => x :: l
      end
  end.

Definition sort_by {A} (cmp : A -> A -> comparison) (l : list A) : list A :=
  foldr (insert_by cmp) [] l.

End Js.

(* ===================================================================== *)
(** ** The regular expressions *)
(* ===================================================================== *)

Module Regex.
Import Js.

(** [RegExp.prototype.exec] from a given position: the pattern is tried at
    each start position from left to right; the result is the text skipped,
    the match, and the text after it. *)
Fixpoint exec {A} (at_start : string -> option (A * string)) (s : string)
  : option (string * A * string) :=
  match at_start s with
  | Some (m, rest) => Some (EmptyString, m, rest)
  | None =>
      match s with
      | EmptyString => None
      | String c s' =>
          match exec at_start s' with
          | Some (pre, m, rest) => Some (String c pre, m, rest)
          | None => None
          end
      end
  end.

(** The class of every character but the double quote, starred: the
    longest run of characters other than the double quote. *)
Fixpoint span_not_quote (s : string) : string * string :=
  match s with
  | EmptyString => (EmptyString, EmptyString)
  | String c s' =>
      if Ascii.eqb c dquote then (EmptyString, s)
      else let '(v, r) := span_not_quote s' in (String c v, r)
  end.

(** A capture of one or more characters other than the double quote, then
    the closing double quote.
    The run is greedy, and giving a character back cannot help: the
    character given back is not a quote. *)
Definition quoted (s : string) : option (string * string) :=
  match span_not_quote s with
  | (String c v, String _ r) => Some (String c v, r)
  | _ => None
  end.

(** One match of the directive pattern: [match[1]], [match[2]] (absent
    when the [path] group did not take part) and [match[3]]. *)
Record ToolMatch := mkToolMatch {
  code : string;
  path : option string;
  content : string
}.

(** [>([\s\S]*?)<\/tool>]: the lazy body stops at the first end marker. *)
Definition tool_body (s : string) : option (string * string) :=
  match strip_prefix ">" s with
  | Some r => find "</tool>" r
  | None => None
  end.

(** The optional [path] attribute followed by the body: the group is tried first
    and, when the rest fails after it, the pattern is retried without it. *)
Definition tool_attrs (c : string) (s : string) : option (ToolMatch * string) :=
  let with_path :=
    match strip_prefix (" path=" ++ dq) s with
    | Some r =>
        match quoted r with
        | Some (p, r') =>
            match tool_body r' with
            | Some (b, rest) => Some (mkToolMatch c (Some p) b, rest)
            | None => None
            end
        | None => None
        end
    | None => None
    end in
  match with_path with
  | Some res => Some res
  | None =>
      match tool_body s with
      | Some (b, rest) => Some (mkToolMatch c None b, rest)
      | None => None
      end
  end.

(** The directive pattern [toolRegex] of [_handleMessage] tried at the
    start of [s]: the opening marker with its [code] attribute, the
    optional [path] attribute, the lazy body and the end marker. *)
Definition tool_at (s : string) : option (ToolMatch * string) :=
  match strip_prefix ("<tool code=" ++ dq) s with
  | Some r =>
      match quoted r with
      | Some (c, r') => tool_attrs c r'
      | None => None
      end
  | None => None
  end.

(** [match[0]]: the text a match covers. *)
Definition full_text (m : ToolMatch) : string :=
  "<tool code=" ++ dq ++ code m ++ dq
  ++ match path m with
     | Some p => " path=" ++ dq ++ p ++ dq
     | None => EmptyString
     end
  ++ ">" ++ content m ++ "</tool>".

(** The global pattern run to exhaustion: every match with the text that
    precedes it, and the text after the last match.  A match is never
    empty, so [length s] rounds are enough. *)
Fixpoint exec_all (fuel : nat) (s : string) : list (string * ToolMatch) * string :=
  match fuel with
  | 0 => ([], s)
  | S f =>
      match exec tool_at s with
      | None => ([], s)
      | Some (pre, m, rest) =>
          let '(ms, tail) := exec_all f rest in ((pre, m) :: ms, tail)
      end
  end.

(** The successive results of [toolRegex.exec(answer)], [lastIndex]
    starting at 0. *)
Definition tool_matches (answer : string) : list ToolMatch :=
  map snd (fst (exec_all (String.length answer) answer)).

(** [answer.replace(toolRegex, '')]. *)
Definition strip_tools (answer : string) : string :=
  let '(ms, tail) := exec_all (String.length answer) answer in
  String.concat EmptyString (map fst ms) ++ tail.

(** [<tag>([\s\S]*?)<\/tag>] tried at the start of [s]. *)
Definition region_at (tag : string) (s : string) : option (string * string) :=
  match strip_prefix ("<" ++ tag ++ ">") s with
  | Some r => find ("</" ++ tag ++ ">") r
  | None => None
  end.

(** [content.match(/<tag>([\s\S]*?)<\/tag>/)], then [[1]]. *)
Definition match_region (tag : string) (s : string) : option string :=
  match exec (region_at tag) s with
  | Some (_, body, _) => Some body
  | None => None
  end.

End Regex.

(* ===================================================================== *)
(** ** The world behind the gateway *)
(* ===================================================================== *)

Module Fs.
Import Js.

Definition nl : string := String (ascii_of_nat 10) EmptyString.

(** One step of path normalisation: empty and [.] segments vanish, [..]
    removes the segment before it (and is kept when it climbs above the
    workspace root). *)
Definition push_segment (stack : list string) (seg : string) : list string :=
  if String.eqb seg "" || String.eqb seg "." then stack
  else if String.eqb seg ".." then
    match stack with
    | top :: below => if String.eqb top ".." then seg :: stack else below
    | [] => [seg]
    end
  else seg :: stack.

(** [vscode.Uri.joinPath(rootUri, relativePath)] on a POSIX host: the
    segments of [relativePath], normalised, below the root. *)
Definition joinPath (relativePath : string) : list string :=
  rev (fold_left push_segment (split_on "/" relativePath) []).

Inductive FileType := File | Directory.

#[global] Instance FileType_eq_dec : EqDecision FileType :=
  ltac:(solve_decision).

(** The calls that leave the extension host. *)
Inductive IO :=
| Stat (uri : list string)
| Copy (source target : list string)
| ReadFile (uri : list string)
| WriteFile (uri : list string) (text : string)
| ReadDirectory (uri : list string)
| FindFiles
| OpenTextDocument (uri : list string)
| Exec (command cwd : string).

(** [workspaceFolders] is [None] when no folder is open, and otherwise
    holds the [fsPath] of the first folder.  [readonly] is the set of paths
    that cannot be created or overwritten (the fault model of the
    filesystem).  [ticks] counts the readings of the clock. *)
Record World := mkWorld {
  workspaceFolders : option string;
  files : gmap (list string) string;
  readonly : gset (list string);
  ticks : nat;
  trace : list IO
}.

Definition set_files (w : World) (f : gmap (list string) string) : World :=
  mkWorld (workspaceFolders w) f (readonly w) (ticks w) (trace w).

Definition set_ticks (w : World) (n : nat) : World :=
  mkWorld (workspaceFolders w) (files w) (readonly w) n (trace w).

Definition set_trace (w : World) (t : list IO) : World :=
  mkWorld (workspaceFolders w) (files w) (readonly w) (ticks w) t.

(** What [err.code] of [child_process.exec] can be: the exit status, a
    system error name (the shell could not be started: [ENOENT], ...), or
    nothing (the child was killed by a signal). *)
Inductive ExecCode :=
| ExitStatus (n : nat)
| SystemCode (name : string)
| NullCode.

(** The arguments of the callback of [cp.exec]. *)
Record ExecOutcome := mkExecOutcome {
  exec_err : option ExecCode;
  exec_stdout : string;
  exec_stderr : string
}.

(** The reply of [fetch]. *)
Record Response := mkResponse {
  status : nat;
  text : string
}.

Definition ok (r : Response) : bool :=
  Nat.leb 200 (status r) && Nat.leb (status r) 299.

(** The oracles: the [n]-th reading of [new Date().toISOString()], the
    shell (which may rewrite the files), the [n]-th call of the model
    endpoint with its prompt, the fixed instruction text, the collation of
    the host ([a.localeCompare(b)], by the sign of its result) and the
    commands that the host refuses to start, with the message of what
    [cp.exec] throws for them. *)
Record Env := mkEnv {
  clock : nat -> string;
  shell : string -> string -> World -> ExecOutcome * gmap (list string) string;
  model : nat -> string -> Response;
  systemPrompt : string;
  localeCompare : string -> string -> comparison;
  refuses : string -> option string
}.

(** [cp.exec(command, ...)] throws, before it returns and before any
    process is started, when its arguments are rejected: an empty command
    (Node checks that the file to run is not the empty string), and
    whatever else the host refuses (a NUL byte in the command, an argument
    list that is too long). *)
Definition execThrows (E : Env) (command : string) : option string :=
  if String.eqb command ""
  then Some "The argument 'file' cannot be empty. Received ''"
  else refuses E command.

(** The errors thrown in the provider, named as in the specification. *)
Inductive Error :=
| NoWorkspace
| AccessDenied (relativePath : string)
| MalformedDirective
| SearchNotFound (relativePath : string)
| NoBackupFound (relativePath : string)
| FsError (name : string)
| ModelError (status : nat)
| ExecError (text : string).

(** [err.message]. *)
Definition message (e : Error) : string :=
  match e with
  | NoWorkspace => "No workspace"
  | AccessDenied p => "Access denied: " ++ dq ++ p ++ dq ++ " is ignored."
  | MalformedDirective => "Malformed replace_lines content."
  | SearchNotFound p => "Search string not found in " ++ dq ++ p ++ dq ++ "."
  | NoBackupFound p => "No backups found for " ++ dq ++ p ++ dq
  | FsError name => name
  | ModelError n => "API " ++ pretty n
  | ExecError text => text
  end.

Inductive Result (A : Type) :=
| Ok (a : A)
| Err (e : Error).

Arguments Ok {A} a.
Arguments Err {A} e.

(** A gateway computation: it may throw, and what it did to the world
    before throwing stays done. *)
Definition Gw (A : Type) : Type := World -> Result A * World.

Definition ret {A} (a : A) : Gw A := fun w => (Ok a, w).

Definition throw {A} (e : Error) : Gw A := fun w => (Err e, w).

Definition bind {A B} (m : Gw A) (k : A -> Gw B) : Gw B :=
  fun w =>
    match m w with
    | (Ok a, w') => k a w'
    | (Err e, w') => (Err e, w')
    end.

(** [try { m } catch (e) { }]. *)
Definition swallow (m : Gw unit) : Gw unit :=
  fun w => (Ok tt, snd (m w)).

Declare Scope gw_scope.
Delimit Scope gw_scope with gw.
Notation "'let*' x ':=' m 'in' k" := (bind m (fun x => k))
  (at level 10, x name, m at level 100, k at level 200, only parsing) : gw_scope.
Notation "m ';;' k" := (bind m (fun _ => k))
  (at level 100, k at level 200, right associativity, only parsing) : gw_scope.

Definition record (io : IO) : Gw unit :=
  fun w => (Ok tt, set_trace w (trace w ++ [io])%list).

(** What is left of the path [k] below the directory [dir]. *)
Fixpoint below (dir k : list string) : option (list string) :=
  match dir, k with
  | [], _ => Some k
  | d :: dir', s :: k' => if String.eqb d s then below dir' k' else None
  | _ :: _, [] => None
  end.

(** [k] is the path [dir] or lies below it. *)
Definition under (dir k : list string) : bool :=
  match below dir k with Some _ => true | None => false end.

(** Neither path is the other or lies below it. *)
Definition apart (a b : list string) : bool :=
  negb (under a b) && negb (under b a).

(** A folder exists at [uri]: the workspace root and its ancestors, and
    every path below which a file lies. *)
Definition isDirectory (fs : gmap (list string) string) (uri : list string) : bool :=
  forallb (String.eqb "..") uri
  || existsb (fun k => match below uri k with Some (_ :: _) => true | _ => false end)
       (map fst (map_to_list fs)).

(** What exists at [uri]: a regular file, a folder, or nothing. *)
Definition kind (fs : gmap (list string) string) (uri : list string) : option FileType :=
  match fs !! uri with
  | Some _ => Some File
  | None => if isDirectory fs uri then Some Directory else None
  end.

(** [vscode.workspace.fs.stat]: it succeeds on a file and on a folder. *)
Definition stat (uri : list string) : Gw unit :=
  (record (Stat uri) ;;
   fun w => match kind (files w) uri with
            | Some _ => (Ok tt, w)
            | None => (Err (FsError "FileNotFound"), w)
            end)%gw.

(** [vscode.workspace.fs.readFile], then [TextDecoder.decode]. *)
Definition readFile (uri : list string) : Gw string :=
  (record (ReadFile uri) ;;
   fun w => match files w !! uri with
            | Some t => (Ok t, w)
            | None => (Err (FsError "FileNotFound"), w)
            end)%gw.

(** [vscode.workspace.fs.writeFile] of [TextEncoder.encode(text)]. *)
Definition writeFile (uri : list string) (t : string) : Gw unit :=
  (record (WriteFile uri t) ;;
   fun w => if bool_decide (uri ∈ readonly w)
            then (Err (FsError "NoPermissions"), w)
            else (Ok tt, set_files w (<[uri := t]> (files w))))%gw.

(** The files once [target] and all that lies below it are deleted. *)
Definition prune (target : list string) (fs : gmap (list string) string)
  : gmap (list string) string :=
  filter (fun kv => under target (fst kv) = false) fs.

(** The files of [fs] below the folder [source], added to [base] below
    [target]. *)
Definition graft (source target : list string) (fs base : gmap (list string) string)
  : gmap (list string) string :=
  foldr (fun kv acc =>
           match below source (fst kv) with
           | Some rest => <[(target ++ rest)%list := snd kv]> acc
           | None => acc
           end)
    base (map_to_list fs).

(** The files after [source] has been copied over [target]: what was at
    [target] is deleted, with all that lay below it; then the file, or the
    folder with all that lies below it, is copied. *)
Definition copied (source target : list string) (fs : gmap (list string) string)
  : gmap (list string) string :=
  match fs !! source with
  | Some t => <[target := t]> (prune target fs)
  | None => graft source target fs (prune target fs)
  end.

(** [vscode.workspace.fs.copy(source, target, { overwrite: true })], as
    the file service of the editor runs it.  A copy of a path onto itself
    does nothing, and fails when nothing is there.  A target at or below
    the source is refused, and so is an existing target that contains the
    source.  Then an existing target is deleted, folders included, and the
    file or the folder is copied; when there is no source, the copy fails
    at that point, after the deletion. *)
Definition copy (source target : list string) : Gw unit :=
  (record (Copy source target) ;;
   fun w =>
     if bool_decide (source = target) then
       match kind (files w) target with
       | Some _ => (Ok tt, w)
       | None => (Err (FsError "FileNotFound"), w)
       end
     else if under source target
     then (Err (FsError "Unable to move/copy when source is parent of target"), w)
     else if match kind (files w) target with
             | Some _ => under target source
             | None => false
             end
     then (Err (FsError "Unable to move/copy because it would replace the folder it is contained in"), w)
     else if bool_decide (target ∈ readonly w)
     then (Err (FsError "NoPermissions"), w)
     else
       match kind (files w) source with
       | Some _ => (Ok tt, set_files w (copied source target (files w)))
       | None => (Err (FsError "FileNotFound"), set_files w (prune target (files w)))
       end)%gw.

(** The entry of directory [dir] through which the file [k] is reached;
    a file that is reached by climbing above [dir] is reached through no
    entry of it. *)
Definition entry_of (dir k : list string) : option (string * FileType) :=
  match below dir k with
  | Some (name :: rest) =>
      if String.eqb name ".." then None
      else Some (name, match rest with [] => File | _ :: _ => Directory end)
  | _ => None
  end.

(** The names and kinds of the direct children of [dir]. *)
Definition entries (dir : list string) (w : World) : list (string * FileType) :=
  remove_dups (omap (entry_of dir) (map fst (map_to_list (files w)))).

(** [vscode.workspace.fs.readDirectory]. *)
Definition readDirectory (dir : list string) : Gw (list (string * FileType)) :=
  (record (ReadDirectory dir) ;; fun w => (Ok (entries dir w), w))%gw.

(** [new Date().toISOString()]. *)
Definition now (E : Env) : Gw string :=
  fun w => (Ok (clock E (ticks w)), set_ticks w (S (ticks w))).

End Fs.

(* ===================================================================== *)
(** ** The gateway methods of the provider *)
(* ===================================================================== *)

Module Gateway.
Import Js Regex Fs.

(** [_ignorePatterns]. *)
Definition ignorePatterns : list string :=
  [ "node_modules"; "vendor"; ".git"; "dist"; "build"; "out";
    "target"; "bin"; "obj"; "lib"; ".idea"; ".vscode"; ".env" ].

(** [relativePath.replace(/\\/g, '/')]. *)
Definition normalizedPath (relativePath : string) : string :=
  map_chars (fun c => if Ascii.eqb c backslash then "/"%char else c) relativePath.

(** The test of [_writeFile] and [_readFile]: some pattern occurs as a
    whole directory segment, inside the path or at its start. *)
Definition isIgnored (relativePath : string) : bool :=
  existsb
    (fun pattern =>
       includes (normalizedPath relativePath) ("/" ++ pattern ++ "/")
       || startsWith (normalizedPath relativePath) (pattern ++ "/"))
    ignorePatterns.

(** [if (!vscode.workspace.workspaceFolders) throw new Error('No workspace')],
    then [workspaceFolders[0]]. *)
Definition requireWorkspace : Gw string :=
  fun w => match workspaceFolders w with
           | Some root => (Ok root, w)
           | None => (Err NoWorkspace, w)
           end.

(** [toISOString().replace(/[:.]/g, '-')]. *)
Definition timestampOf (iso : string) : string :=
  map_chars (fun c => if Ascii.eqb c ":" || Ascii.eqb c "." then "-"%char else c) iso.

(** [_createBackup]: everything happens inside one [try] whose [catch]
    is empty. *)
Definition _createBackup (E : Env) (relativePath : string) (fileUri : list string) : Gw unit :=
  swallow
    (stat fileUri ;;
     let* iso := now E in
     let timestamp := timestampOf iso in
     let backupPath := relativePath ++ ".bak." ++ timestamp in
     let backupUri := joinPath backupPath in
     copy fileUri backupUri)%gw.

(** [_writeFile]. *)
Definition _writeFile (E : Env) (relativePath content : string) : Gw string :=
  (requireWorkspace ;;
   let fileUri := joinPath relativePath in
   if isIgnored relativePath then throw (AccessDenied relativePath)
   else
     _createBackup E relativePath fileUri ;;
     writeFile fileUri content ;;
     swallow (record (OpenTextDocument fileUri)) ;;
     ret ("Written to " ++ relativePath))%gw.

(** [_readFile]. *)
Definition _readFile (relativePath : string) : Gw string :=
  (requireWorkspace ;;
   if isIgnored relativePath then throw (AccessDenied relativePath)
   else readFile (joinPath relativePath))%gw.

(** [_replaceLines]. *)
Definition _replaceLines (E : Env) (relativePath content : string) : Gw string :=
  (requireWorkspace ;;
   let fileUri := joinPath relativePath in
   let searchMatch := match_region "search" content in
   let replaceMatch := match_region "replace" content in
   match searchMatch, replaceMatch with
   | Some search, Some replace =>
       let* original := readFile fileUri in
       if negb (includes original search)
       then throw (SearchNotFound relativePath)
       else
         _createBackup E relativePath fileUri ;;
         let updated := Js.replace original search replace in
         writeFile fileUri updated ;;
         ret ("Successfully updated " ++ relativePath)
   | _, _ => throw MalformedDirective
   end)%gw.

(** [_restoreFile]: the backups are looked for among the entries of the
    workspace root. *)
Definition _restoreFile (E : Env) (relativePath : string) : Gw string :=
  (requireWorkspace ;;
   let fileUri := joinPath relativePath in
   let* entries := readDirectory [] in
   let baks :=
     sort_by (fun a b => localeCompare E (fst b) (fst a))
       (filter (fun e => startsWith (fst e) (relativePath ++ ".bak.") = true) entries) in
   match baks with
   | [] => throw (NoBackupFound relativePath)
   | (latestBak, _) :: _ =>
       let bakUri := joinPath latestBak in
       copy bakUri fileUri ;;
       ret ("Restored " ++ dq ++ relativePath ++ dq ++ " from backup.")
   end)%gw.

(** The text of [err.code] inside a template literal. *)
Definition code_text (c : ExecCode) : string :=
  match c with
  | ExitStatus n => pretty n
  | SystemCode name => name
  | NullCode => "null"
  end.

(** [(stdout || '') + (stderr ? `\nstderr:\n${stderr}` : '')]. *)
Definition combinedOutput (o : ExecOutcome) : string :=
  exec_stdout o
  ++ (if String.eqb (exec_stderr o) "" then ""
      else nl ++ "stderr:" ++ nl ++ exec_stderr o).

(** [_runCommand]: the callback resolves the promise in both of its
    branches; the promise is rejected only when [cp.exec], called in its
    executor, throws before it returns. *)
Definition _runCommand (E : Env) (command : string) : Gw string :=
  (let* rootPath := requireWorkspace in
   fun w =>
     match execThrows E command with
     | Some thrown => (Err (ExecError thrown), w)
     | None =>
         let '(o, files') := shell E command rootPath w in
         let w' := set_trace (set_files w files') (trace w ++ [Exec command rootPath])%list in
         let output := combinedOutput o in
         match exec_err o with
         | Some c => (Ok ("Exit Code: " ++ code_text c ++ nl ++ output), w')
         | None => (Ok (if String.eqb output "" then "Done" else output), w')
         end
     end)%gw.

(** The exclusion glob of [_listFiles]: a file is left out when one of
    its directories bears an ignored name. *)
Definition excluded (k : list string) : bool :=
  existsb (fun seg => existsb (String.eqb seg) ignorePatterns) (removelast k).

(** Files of the workspace: paths that do not climb above the root. *)
Definition inWorkspace (k : list string) : bool :=
  match k with
  | [] => false
  | seg :: _ => negb (String.eqb seg "..")
  end.

(** [_listFiles]. *)
Definition _listFiles : Gw string :=
  (requireWorkspace ;;
   record FindFiles ;;
   fun w =>
     let found :=
       filter (fun k => inWorkspace k && negb (excluded k) = true)
         (map fst (map_to_list (files w))) in
     (Ok (join nl (map (join "/") found)), w))%gw.

End Gateway.

(* ===================================================================== *)
(** ** The agent loop *)
(* ===================================================================== *)

Module Agent.
Import Js Regex Fs Gateway.

(** [interface Message]. *)
Record Message := mkMessage {
  role : string;
  content : string
}.

(** What [webview.postMessage] sends. *)
Inductive Event :=
| StatusEvent (working : bool) (sessionId : string)
| ReceiveMessage (message : string) (sessionId : string)
| ToolCall (code : string) (path : option string) (status : string)
    (result : option string) (sessionId : string).

(** The provider: the world it acts on, [_sessionHistories], the events
    posted so far and the number of calls made to the model endpoint. *)
Record State := mkState {
  world : World;
  sessionHistories : gmap string (list Message);
  posted : list Event;
  fetches : nat
}.

Definition set_world (st : State) (w : World) : State :=
  mkState w (sessionHistories st) (posted st) (fetches st).

(** [webviewView.webview.postMessage(ev)]. *)
Definition post (ev : Event) (st : State) : State :=
  mkState (world st) (sessionHistories st) (posted st ++ [ev])%list (fetches st).

(** [history.push(msg)] on the history of the session. *)
Definition push (sessionId : string) (msg : Message) (st : State) : State :=
  mkState (world st)
    (<[sessionId := (default [] (sessionHistories st !! sessionId) ++ [msg])%list]>
       (sessionHistories st))
    (posted st) (fetches st).

Definition maxLoops : nat := 10.

(** The chain of comparisons on [code]; a code that matches none of them
    leaves [result] at the empty string. *)
Definition dispatch (E : Env) (m : ToolMatch) : Gw string :=
  let code := Regex.code m in
  let path := default EmptyString (Regex.path m) in
  let content := Regex.content m in
  if String.eqb code "replace_lines" then _replaceLines E path content
  else if String.eqb code "write_file" then _writeFile E path content
  else if String.eqb code "read_file" then _readFile path
  else if String.eqb code "list_files" then _listFiles
  else if String.eqb code "run_command" then _runCommand E (trim content)
  else if String.eqb code "restore_file" then _restoreFile E path
  else ret EmptyString.

(** The body of the inner [while]: one directive, with its [try]/[catch]. *)
Definition run_tool (E : Env) (sessionId : string) (st : State) (m : ToolMatch) : State :=
  let code := Regex.code m in
  let path := Regex.path m in
  let st := post (ToolCall code path "running" None sessionId) st in
  let '(r, w') := dispatch E m (world st) in
  let st := set_world st w' in
  match r with
  | Ok result =>
      let st := push sessionId
                  (mkMessage "System" ("Tool Output (" ++ code ++ "):" ++ nl ++ result)) st in
      post (ToolCall code path "success" (Some result) sessionId) st
  | Err err =>
      let st := push sessionId
                  (mkMessage "System" ("Error (" ++ code ++ "): " ++ message err)) st in
      post (ToolCall code path "error" (Some (message err)) sessionId) st
  end.

(** The text shown to the user: [answer.replace(toolRegex, '').trim()]. *)
Definition narrative (answer : string) : string := trim (strip_tools answer).

(** The prompt of one iteration. *)
Definition fullMessage (E : Env) (history : list Message) : string :=
  let historyString :=
    join (nl ++ nl) (map (fun msg => role msg ++ ": " ++ content msg) history) in
  systemPrompt E ++ nl ++ nl ++ historyString ++ nl ++ nl ++ "Assistant:".

(** [while (loopCount < maxLoops) { loopCount++; ... }].  [remaining] is
    [maxLoops - loopCount], the variant of the loop.  The result is what
    the loop threw, if anything, the final [loopCount] and the state. *)
Fixpoint loop (E : Env) (sessionId : string) (remaining loopCount : nat) (st : State)
  : Result unit * nat * State :=
  match remaining with
  | 0 => (Ok tt, loopCount, st)
  | S remaining' =>
      let loopCount := S loopCount in
      let history := default [] (sessionHistories st !! sessionId) in
      let response := model E (fetches st) (fullMessage E history) in
      let st := mkState (world st) (sessionHistories st) (posted st) (S (fetches st)) in
      if negb (ok response) then (Err (ModelError (status response)), loopCount, st)
      else
        let answer := text response in
        let st := push sessionId (mkMessage "Assistant" answer) st in
        let st := post (ReceiveMessage (narrative answer) sessionId) st in
        let matches := tool_matches answer in
        let st := fold_left (run_tool E sessionId) matches st in
        let hasToolCalls := match matches with [] => false | _ :: _ => true end in
        if negb hasToolCalls then (Ok tt, loopCount, st)
        else loop E sessionId remaining' loopCount st
  end.

(** The start of [_handleMessage], up to the loop: the history is created
    on first use, the message of the user is pushed and the first status
    event is posted. *)
Definition enter (userMessage sessionId : string) (st : State) : State :=
  let st :=
    match sessionHistories st !! sessionId with
    | Some _ => st
    | None => mkState (world st) (<[sessionId := []]> (sessionHistories st))
                (posted st) (fetches st)
    end in
  let st := push sessionId (mkMessage "User" userMessage) st in
  post (StatusEvent true sessionId) st.

(** [_handleMessage]: the loop runs between the two status events, the
    second one in a [finally]. *)
Definition _handleMessage (E : Env) (userMessage sessionId : string) (st : State)
  : Result unit * nat * State :=
  let st := enter userMessage sessionId st in
  let '(r, loopCount, st) := loop E sessionId maxLoops 0 st in
  (r, loopCount, post (StatusEvent false sessionId) st).

(** The parts of what [loop] and [_handleMessage] return. *)
Definition outcomeOf (out : Result unit * nat * State) : Result unit := fst (fst out).
Definition loopCountOf (out : Result unit * nat * State) : nat := snd (fst out).
Definition stateOf (out : Result unit * nat * State) : State := snd out.

(** The three requests of the webview. *)
Inductive Request :=
| SendMessage (message sessionId : string)
| ClearSession (sessionId : string)
| DeleteSession (sessionId : string).

(** The handler installed by [resolveWebviewView]. *)
Definition onDidReceiveMessage (E : Env) (data : Request) (st : State) : State :=
  match data with
  | SendMessage msg sessionId =>
      match _handleMessage E msg sessionId st with
      | (Ok _, _, st') => st'
      | (Err error, _, st') =>
          post (ReceiveMessage ("**Error:** Error: " ++ message error) sessionId) st'
      end
  | ClearSession sessionId =>
      mkState (world st) (<[sessionId := []]> (sessionHistories st)) (posted st) (fetches st)
  | DeleteSession sessionId =>
      mkState (world st) (delete sessionId (sessionHistories st)) (posted st) (fetches st)
  end.

End Agent.

(* ===================================================================== *)
(** ** The gateway of the earlier provider *)
(* ===================================================================== *)

(** [src/chatViewProvider.ts] holds an earlier version of the provider,
    without [replace_lines] and [restore_file]; its gateway methods are
    written out here.  What is thrown is recorded with the errors of the
    later provider; the texts, which depend on the method that throws,
    are those of [Earlier.message]. *)
Module Earlier.
Import Js Regex Fs Gateway.

(** The three methods of the gateway. *)
Inductive Method := Writing | Reading | Running.

(** [err.message], for an error thrown by the method [f]. *)
Definition message (f : Method) (e : Error) : string :=
  match e, f with
  | NoWorkspace, Running => "No workspace open"
  | AccessDenied p, Writing =>
      "Access denied: Cannot write to ignored file " ++ dq ++ p ++ dq ++ "."
  | AccessDenied p, Reading =>
      "Access denied: File " ++ dq ++ p ++ dq ++ " is in an ignored directory."
  | _, _ => Fs.message e
  end.

(** [_writeFile]: the backup is made in place, inside a [try] whose
    [catch] is empty. *)
Definition _writeFile (E : Env) (relativePath content : string) : Gw string :=
  (requireWorkspace ;;
   let fileUri := joinPath relativePath in
   if isIgnored relativePath then throw (AccessDenied relativePath)
   else
     swallow
       (stat fileUri ;;
        let* iso := now E in
        let timestamp := timestampOf iso in
        let backupPath := relativePath ++ ".bak." ++ timestamp in
        let backupUri := joinPath backupPath in
        copy fileUri backupUri) ;;
     writeFile fileUri content ;;
     swallow (record (OpenTextDocument fileUri)) ;;
     ret ("Written to " ++ relativePath ++ " (Backup created if existed)"))%gw.

(** [_readFile]. *)
Definition _readFile (relativePath : string) : Gw string :=
  (requireWorkspace ;;
   if isIgnored relativePath then throw (AccessDenied relativePath)
   else readFile (joinPath relativePath))%gw.

(** [_runCommand]. *)
Definition _runCommand (E : Env) (command : string) : Gw string :=
  (let* rootPath := requireWorkspace in
   fun w =>
     match execThrows E command with
     | Some thrown => (Err (ExecError thrown), w)
     | None =>
         let '(o, files') := shell E command rootPath w in
         let w' := set_trace (set_files w files') (trace w ++ [Exec command rootPath])%list in
         let output := combinedOutput o in
         match exec_err o with
         | Some c => (Ok ("Exit Code: " ++ code_text c ++ nl ++ output), w')
         | None => (Ok (if String.eqb output "" then "Success (No Output)" else output), w')
         end
     end)%gw.

End Earlier.

(* ===================================================================== *)
(** ** Vocabulary of the specification *)
(* ===================================================================== *)

Module Spec.
Import Js Regex Fs Gateway.

(** [c] occurs in [s]. *)
Fixpoint has_char (c : ascii) (s : string) : bool :=
  match s with
  | EmptyString => false
  | String x s' => Ascii.eqb c x || has_char c s'
  end.

(** The opening marker of a directive, up to the value of [code]. *)
Definition marker : string := "<tool code=" ++ dq.

(** A well-formed directive block: a non-empty [code] and, when present, a
    non-empty [path], both free of double quotes, and a body that does not
    hold the end marker. *)
Definition well_formed (m : ToolMatch) : Prop :=
  code m <> "" /\ includes (code m) dq = false /\
  match path m with
  | Some p => p <> "" /\ includes p dq = false
  | None => True
  end /\
  includes (content m) "</tool>" = false.

(** Text in which no directive opens. *)
Definition plain (s : string) : Prop := includes s marker = false.

(** A reply made of directive blocks, each after some text, and of the
    text after the last block. *)
Fixpoint reply (blocks : list (string * ToolMatch)) (tail : string) : string :=
  match blocks with
  | [] => tail
  | (gap, m) :: bs => gap ++ full_text m ++ reply bs tail
  end.

(** The text of a reply outside its blocks. *)
Definition outside (blocks : list (string * ToolMatch)) (tail : string) : string :=
  String.concat EmptyString (map fst blocks) ++ tail.

(** C6 as the specification words it: the normalised path contains, or
    starts with, the name of an ignored directory. *)
Definition names_ignored_directory (relativePath : string) : Prop :=
  exists pattern, In pattern ignorePatterns /\
    (includes (normalizedPath relativePath) pattern = true
     \/ startsWith (normalizedPath relativePath) pattern = true).

(** The path runs through an ignored directory: the name of one is a whole
    segment of the normalised path, followed by a slash. *)
Definition under_ignored_directory (relativePath : string) : Prop :=
  exists pattern, In pattern ignorePatterns /\
    ((exists a b, normalizedPath relativePath = a ++ ("/" ++ pattern ++ "/") ++ b)
     \/ (exists b, normalizedPath relativePath = (pattern ++ "/") ++ b)).

(** The body holds a region delimited by [<tag>] and [</tag>]. *)
Definition has_region (tag body : string) : Prop :=
  exists a m b, body = a ++ ("<" ++ tag ++ ">") ++ m ++ ("</" ++ tag ++ ">") ++ b.

(** The name under which [_createBackup], called in the world [w], saves
    the file at [relativePath]: the path, [.bak.] and the time stamp. *)
Definition backupUri (E : Env) (w : World) (relativePath : string) : list string :=
  joinPath (relativePath ++ ".bak." ++ timestampOf (clock E (ticks w))).

(** A comparator on which [Array.prototype.sort] can rely: what comes
    after does not come before, and not coming after is transitive. *)
Definition consistent (cmp : string -> string -> comparison) : Prop :=
  (forall a b, cmp a b = Gt -> cmp b a = Lt) /\
  (forall a b c, cmp a b <> Gt -> cmp b c <> Gt -> cmp a c <> Gt).

(** The kinds of directive the specification knows. *)
Definition known_kinds : list string :=
  [ "read_file"; "write_file"; "replace_lines"; "list_files";
    "run_command"; "restore_file" ].

End Spec.

(* ===================================================================== *)
(** ** Shapes of inputs *)
(* ===================================================================== *)

Module Shape.
Import Js Regex Fs Gateway.

(** The body of a [replace_lines] directive that asks to replace [search]
    by [replacement], with free text around the two regions. *)
Definition replace_body (pre search mid replacement post : string) : string :=
  pre ++ "<search>" ++ search ++ "</search>"
  ++ mid ++ "<replace>" ++ replacement ++ "</replace>" ++ post.

(** From [w] to [w'] no file was changed, created or removed outside the
    paths [ks] and what lies below them. *)
Definition confined (ks : list (list string)) (w w' : World) : Prop :=
  forall k, (forall d, In d ks -> under d k = false) ->
            files w' !! k = files w !! k.

(** A name that is one segment of a path: no slash, and none of the
    three names that normalisation treats apart. *)
Definition segment (name : string) : Prop :=
  Spec.has_char "/" name = false /\ name <> "" /\ name <> "." /\ name <> "..".

(** The history of a session, empty when the session is unknown. *)
Definition historyOf (sessionId : string) (st : Agent.State) : list Agent.Message :=
  default [] (Agent.sessionHistories st !! sessionId).

(** The directives [ms], run one after the other from the world [w], each
    in the world its predecessor left: the messages they add to the history
    and the events they post, in order, and the world after the last.  A
    directive posts a [running] event, is dispatched, and is answered by a
    [System] message and a closing event, [success] with the result of the
    tool or [error] with the message of what it threw. *)
Inductive answered (E : Env) (sessionId : string)
  : World -> list ToolMatch -> list Agent.Message -> list Agent.Event -> World -> Prop :=
| answered_nil (w : World) : answered E sessionId w [] [] [] w
| answered_ok (w w1 w2 : World) (m : ToolMatch) (ms : list ToolMatch)
    (result : string) (outs : list Agent.Message) (evs : list Agent.Event) :
    Agent.dispatch E m w = (Ok result, w1) ->
    answered E sessionId w1 ms outs evs w2 ->
    answered E sessionId w (m :: ms)
      (Agent.mkMessage "System"
         ("Tool Output (" ++ Regex.code m ++ "):" ++ nl ++ result) :: outs)
      (Agent.ToolCall (Regex.code m) (Regex.path m) "running" None sessionId
       :: Agent.ToolCall (Regex.code m) (Regex.path m) "success" (Some result) sessionId
       :: evs)
      w2
| answered_err (w w1 w2 : World) (m : ToolMatch) (ms : list ToolMatch)
    (e : Error) (outs : list Agent.Message) (evs : list Agent.Event) :
    Agent.dispatch E m w = (Err e, w1) ->
    answered E sessionId w1 ms outs evs w2 ->
    answered E sessionId w (m :: ms)
      (Agent.mkMessage "System"
         ("Error (" ++ Regex.code m ++ "): " ++ message e) :: outs)
      (Agent.ToolCall (Regex.code m) (Regex.path m) "running" None sessionId
       :: Agent.ToolCall (Regex.code m) (Regex.path m) "error" (Some (message e)) sessionId
       :: evs)
      w2.


(** An event of the session that is not a status event. *)
Definition turn_event (sessionId : string) (ev : Agent.Event) : Prop :=
  match ev with
  | Agent.StatusEvent _ _ => False
  | Agent.ReceiveMessage _ s => s = sessionId
  | Agent.ToolCall _ _ _ _ s => s = sessionId
  end.

End Shape.

(* ===================================================================== *)
(** ** Sample environments and worlds *)
(* ===================================================================== *)

Module Sample.
Import Js Regex Fs Gateway Agent.

(** A clock that advances by one millisecond at each reading. *)
Definition clock_ms (n : nat) : string :=
  "2026-11-03T10:00:00.00" ++ pretty n ++ "Z".

(** A clock that stands still. *)
Definition clock_still (n : nat) : string := "2026-11-03T10:00:00.000Z".

(** A shell whose commands print on both streams, exit with status 2 and
    leave the files alone. *)
Definition shell_fails (command cwd : string) (w : World)
  : ExecOutcome * gmap (list string) string :=
  (mkExecOutcome (Some (ExitStatus 2)) "out" "err", files w).

(** A host on which no shell can be started. *)
Definition shell_missing (command cwd : string) (w : World)
  : ExecOutcome * gmap (list string) string :=
  (mkExecOutcome (Some (SystemCode "ENOENT")) "" "", files w).

(** A model that gives its final answer at once. *)
Definition model_done (n : nat) (prompt : string) : Response :=
  mkResponse 200 "done".

(** A model that asks for the listing of the files for ever. *)
Definition model_busy (n : nat) (prompt : string) : Response :=
  mkResponse 200 ("Listing. <tool code=" ++ dq ++ "list_files" ++ dq ++ "></tool>").

(** A model that sends a directive of a kind nobody knows, then stops. *)
Definition model_unknown (n : nat) (prompt : string) : Response :=
  match n with
  | 0 => mkResponse 200 ("<tool code=" ++ dq ++ "frobnicate" ++ dq ++ ">x</tool>")
  | _ => mkResponse 200 "done"
  end.

(** A model whose endpoint is down. *)
Definition model_down (n : nat) (prompt : string) : Response :=
  mkResponse 503 "Service Unavailable".

(** A model that reads [a.ts] and lists the files, then stops. *)
Definition model_reads (n : nat) (prompt : string) : Response :=
  match n with
  | 0 => mkResponse 200
           ("<tool code=" ++ dq ++ "read_file" ++ dq ++ " path=" ++ dq ++ "a.ts"
            ++ dq ++ "></tool><tool code=" ++ dq ++ "list_files" ++ dq ++ "></tool>")
  | _ => mkResponse 200 "done"
  end.

(** A collation that orders names by their code units. *)
Definition by_code_units (a b : string) : comparison := String.compare a b.

(** A host that refuses no command but the empty one. *)
Definition accepts (command : string) : option string := None.

(** A host with the given clock, shell and model. *)
Definition host (clock : nat -> string)
    (shell : string -> string -> World -> ExecOutcome * gmap (list string) string)
    (model : nat -> string -> Response) : Env :=
  mkEnv clock shell model "SYSTEM" by_code_units accepts.

Definition env (model : nat -> string -> Response) : Env :=
  host clock_ms shell_fails model.

(** Three writes to the same path, then the restoration of that path. *)
Definition write3_restore (E : Env) (p v1 v2 v3 : string) : Gw string :=
  (_writeFile E p v1 ;;
   _writeFile E p v2 ;;
   _writeFile E p v3 ;;
   _restoreFile E p)%gw.

(** An open workspace holding the given files, all of them writable. *)
Definition workspace (fs : list (list string * string)) : World :=
  mkWorld (Some "/ws") (list_to_map fs) ∅ 0 [].

(** A provider that has not been used yet. *)
Definition fresh (w : World) : State := mkState w ∅ [] 0.

End Sample.

(* ===================================================================== *)
(** ** Facts about the string primitives *)
(* ===================================================================== *)

#[local] Arguments String.append !_ _ / : simpl nomatch.

Section StringFacts.
Import Js.

Lemma sapp_assoc (a b c : string) : (a ++ b) ++ c = a ++ (b ++ c).
Proof. induction a as [|x a IH]; simpl; [reflexivity | now rewrite IH]. Qed.

Lemma sapp_nil_r (a : string) : a ++ "" = a.
Proof. induction a as [|x a IH]; simpl; [reflexivity | now rewrite IH]. Qed.

Lemma slength_app (a b : string) :
  String.length (a ++ b) = String.length a + String.length b.
Proof. induction a as [|x a IH]; simpl; [reflexivity | now rewrite IH]. Qed.

Lemma strip_prefix_app (p r : string) : strip_prefix p (p ++ r) = Some r.
Proof.
  induction p as [|x p IH]; simpl; [reflexivity|].
  now rewrite Ascii.eqb_refl.
Qed.

Lemma strip_prefix_Some (p s r : string) :
  strip_prefix p s = Some r -> s = p ++ r.
Proof.
  revert s; induction p as [|x p IH]; intros s H; simpl in *.
  - now inversion H.
  - destruct s as [|y s]; [discriminate|].
    destruct (Ascii.eqb_spec x y) as [->|]; [|discriminate].
    now rewrite (IH _ H).
Qed.

Lemma find_sound (p s b a : string) :
  find p s = Some (b, a) -> s = b ++ p ++ a.
Proof.
  revert b; induction s as [|c s IH]; intros b H; simpl in H.
  - destruct (strip_prefix p "") eqn:Hp; [|discriminate].
    inversion H; subst. now apply strip_prefix_Some in Hp.
  - destruct (strip_prefix p (String c s)) eqn:Hp.
    + inversion H; subst. now apply strip_prefix_Some in Hp.
    + destruct (find p s) as [[b' a']|] eqn:Hf; [|discriminate].
      inversion H; subst. simpl. now rewrite (IH _ eq_refl).
Qed.

Lemma find_eq (p s : string) :
  find p s =
  match strip_prefix p s with
  | Some r => Some ("", r)
  | None =>
      match s with
      | EmptyString => None
      | String c s' =>
          match find p s' with
          | Some (b, a) => Some (String c b, a)
          | None => None
          end
      end
  end.
Proof. destruct s; reflexivity. Qed.

Lemma find_complete (p b a : string) :
  exists b' a', find p (b ++ p ++ a) = Some (b', a').
Proof.
  induction b as [|c b IH]; simpl.
  - exists "", a. now rewrite find_eq, strip_prefix_app.
  - destruct IH as (b' & a' & IH). rewrite IH.
    destruct (strip_prefix p (String c (b ++ p ++ a))); eauto.
Qed.

Lemma includes_true_iff (s p : string) :
  includes s p = true <-> exists a b, s = a ++ p ++ b.
Proof.
  unfold includes; split.
  - destruct (find p s) as [[b a]|] eqn:Hf; [|discriminate].
    intros _. exists b, a. now apply find_sound.
  - intros (a & b & ->). destruct (find_complete p a b) as (b' & a' & ->).
    reflexivity.
Qed.

Lemma includes_false_iff (s p : string) :
  includes s p = false <-> forall a b, s <> a ++ p ++ b.
Proof.
  split.
  - intros H a b ->. assert (includes (a ++ p ++ b) p = true) as H'
      by (apply includes_true_iff; eauto).
    congruence.
  - intros H. destruct (includes s p) eqn:Hi; [|reflexivity].
    apply includes_true_iff in Hi as (a & b & ->). now destruct (H a b).
Qed.

Lemma startsWith_true_iff (s p : string) :
  startsWith s p = true <-> exists r, s = p ++ r.
Proof.
  unfold startsWith; split.
  - destruct (strip_prefix p s) eqn:Hp; [|discriminate].
    intros _. eexists. apply strip_prefix_Some. exact Hp.
  - intros (r & ->). now rewrite strip_prefix_app.
Qed.

(** A piece of a string that holds no occurrence of [p] holds none either. *)
Lemma includes_app_false (a s b p : string) :
  includes (a ++ s ++ b) p = false -> includes s p = false.
Proof.
  intros H. apply includes_false_iff. intros x y ->.
  apply (proj1 (includes_false_iff _ _) H (a ++ x) (y ++ b)).
  now rewrite !sapp_assoc.
Qed.

Lemma includes_suffix_true (a b p : string) :
  includes b p = true -> includes (a ++ b) p = true.
Proof.
  intros H. destruct (includes (a ++ b) p) eqn:Hi; [reflexivity|].
  rewrite <- (sapp_nil_r b) in Hi. apply includes_app_false in Hi. congruence.
Qed.

(** [find] returns the first occurrence. *)
Lemma find_first (p s b a : string) :
  find p s = Some (b, a) ->
  forall b' a', s = b' ++ p ++ a' -> String.length b <= String.length b'.
Proof.
  revert b; induction s as [|c s IH]; intros b H b' a' Hs; rewrite find_eq in H.
  - destruct (strip_prefix p ""); [|discriminate]. inversion H; subst. cbn; lia.
  - destruct (strip_prefix p (String c s)) eqn:Hp.
    + inversion H; subst. cbn; lia.
    + destruct (find p s) as [[b0 a0]|] eqn:Hf; [|discriminate].
      inversion H; subst. destruct b' as [|c' b'].
      * change ("" ++ p ++ a') with (p ++ a') in Hs.
        rewrite Hs, strip_prefix_app in Hp. discriminate.
      * inversion Hs; subst. cbn [String.length].
        specialize (IH _ eq_refl b' a' eq_refl). lia.
Qed.

(** The text before the first occurrence of a non-empty pattern does not
    hold the pattern. *)
Lemma find_before_free (p s b a : string) :
  p <> "" -> find p s = Some (b, a) -> includes b p = false.
Proof.
  intros Hp Hf. destruct (includes b p) eqn:Hi; [|reflexivity].
  apply includes_true_iff in Hi as (x & y & Hb).
  pose proof (find_sound _ _ _ _ Hf) as Hs.
  assert (s = x ++ p ++ (y ++ p ++ a)) as Hs'
    by (rewrite Hs, Hb, !sapp_assoc; reflexivity).
  pose proof (find_first _ _ _ _ Hf x _ Hs') as Hlen.
  rewrite Hb, !slength_app in Hlen.
  destruct p; [congruence|]. cbn [String.length] in Hlen. lia.
Qed.

End StringFacts.

(* ===================================================================== *)
(** ** Facts about the regular expressions *)
(* ===================================================================== *)

Section RegexFacts.
Import Js Regex Spec.

(** A pattern whose first character does not occur again cannot overlap
    itself: when it starts inside [b] and runs into a following copy of
    itself, it lies within [b]. *)
Lemma strip_prefix_no_char (c : ascii) (p b t : string) :
  has_char c p = false ->
  is_Some (strip_prefix p (b ++ String c t)) ->
  is_Some (strip_prefix p b).
Proof.
  revert b; induction p as [|y p IH]; intros b Hc H; simpl in *.
  - eauto.
  - apply orb_false_iff in Hc as [Hy Hc].
    destruct b as [|z b]; simpl in *.
    + rewrite Ascii.eqb_sym, Hy in H. now destruct H.
    + destruct (Ascii.eqb y z); [now apply IH | now destruct H].
Qed.

Lemma strip_prefix_border (c : ascii) (p b r : string) :
  has_char c p = false -> b <> "" ->
  is_Some (strip_prefix (String c p) (b ++ String c p ++ r)) ->
  is_Some (strip_prefix (String c p) b).
Proof.
  intros Hc Hb H. destruct b as [|x b]; [congruence|]. simpl in *.
  destruct (Ascii.eqb c x); [|now destruct H].
  now apply strip_prefix_no_char in H.
Qed.

Lemma strip_prefix_includes (p s : string) :
  is_Some (strip_prefix p s) -> includes s p = true.
Proof.
  intros [r H]. apply strip_prefix_Some in H as ->.
  apply includes_true_iff. now exists "", r.
Qed.

Lemma includes_cons_false (x : ascii) (s p : string) :
  includes (String x s) p = false -> includes s p = false.
Proof.
  intros H. apply (includes_app_false (String x "") s "" p).
  now rewrite sapp_nil_r.
Qed.

(** The first occurrence of such a pattern after a text that does not hold
    it is the one right after that text. *)
Lemma find_exact (c : ascii) (p b r : string) :
  has_char c p = false ->
  includes b (String c p) = false ->
  find (String c p) (b ++ String c p ++ r) = Some (b, r).
Proof.
  intros Hc. induction b as [|x b IH]; intros Hb.
  - change ("" ++ String c p ++ r) with (String c p ++ r).
    now rewrite find_eq, strip_prefix_app.
  - rewrite find_eq.
    destruct (strip_prefix (String c p) (String x b ++ String c p ++ r)) eqn:Hs.
    + assert (is_Some (strip_prefix (String c p) (String x b))) as H.
      { apply (strip_prefix_border c p (String x b) r Hc); [discriminate|].
        rewrite Hs. eauto. }
      apply strip_prefix_includes in H. congruence.
    + change (String x b ++ String c p ++ r) with (String x (b ++ String c p ++ r)).
      cbv iota. now rewrite (IH (includes_cons_false _ _ _ Hb)).
Qed.

Lemma exec_eq {A} (at_start : string -> option (A * string)) (s : string) :
  exec at_start s =
  match at_start s with
  | Some (m, rest) => Some (EmptyString, m, rest)
  | None =>
      match s with
      | EmptyString => None
      | String c s' =>
          match exec at_start s' with
          | Some (pre, m, rest) => Some (String c pre, m, rest)
          | None => None
          end
      end
  end.
Proof. destruct s; reflexivity. Qed.

(** [exec] returns a match found at some position of the text. *)
Lemma exec_sound {A} (at_start : string -> option (A * string)) s pre m rest :
  exec at_start s = Some (pre, m, rest) ->
  exists t, s = pre ++ t /\ at_start t = Some (m, rest).
Proof.
  revert pre; induction s as [|c s IH]; intros pre H; rewrite exec_eq in H.
  - destruct (at_start "") as [[m' r']|] eqn:Ha; [|discriminate].
    inversion H; subst. now exists "".
  - destruct (at_start (String c s)) as [[m' r']|] eqn:Ha.
    + inversion H; subst. now exists (String c s).
    + destruct (exec at_start s) as [[[pre' m'] r']|] eqn:He; [|discriminate].
      inversion H; subst. destruct (IH _ eq_refl) as (t & -> & Ht).
      now exists t.
Qed.

(** No match at any position: [exec] fails. *)
Lemma exec_none {A} (at_start : string -> option (A * string)) s :
  (forall a b, s = a ++ b -> at_start b = None) ->
  exec at_start s = None.
Proof.
  induction s as [|c s IH]; intros H; rewrite exec_eq.
  - now rewrite (H "" "").
  - rewrite (H "" (String c s) eq_refl), IH; [reflexivity|].
    intros a b ->. now apply (H (String c a)).
Qed.

(** No match at any position of [gap]: [exec] skips [gap]. *)
Lemma exec_skip {A} (at_start : string -> option (A * string)) gap s :
  (forall a b, gap = a ++ b -> b <> "" -> at_start (b ++ s) = None) ->
  exec at_start (gap ++ s) =
  match exec at_start s with
  | Some (pre, m, rest) => Some (gap ++ pre, m, rest)
  | None => None
  end.
Proof.
  induction gap as [|c gap IH]; intros H.
  - change ("" ++ s) with s. now destruct (exec at_start s) as [[[? ?] ?]|].
  - rewrite exec_eq, (H "" (String c gap) eq_refl); [|discriminate].
    change (String c gap ++ s) with (String c (gap ++ s)). cbv iota.
    rewrite IH.
    + now destruct (exec at_start s) as [[[? ?] ?]|].
    + intros a b -> Hb. now apply (H (String c a)).
Qed.

End RegexFacts.

(* ===================================================================== *)
(** ** The directive parser *)
(* ===================================================================== *)

Section ParserFacts.
Import Js Regex Spec.

Lemma strip_prefix_app2 (a b r : string) :
  strip_prefix (a ++ b) (a ++ b ++ r) = Some r.
Proof. rewrite <- sapp_assoc. apply strip_prefix_app. Qed.

Lemma no_quote_cons (x : ascii) (v : string) :
  includes (String x v) dq = false ->
  Ascii.eqb x dquote = false /\ includes v dq = false.
Proof.
  intros H; split; [|now apply includes_cons_false in H].
  destruct (Ascii.eqb_spec x dquote) as [->|]; [|reflexivity].
  now destruct (proj1 (includes_false_iff _ _) H "" v).
Qed.

Lemma span_not_quote_app (v r : string) :
  includes v dq = false ->
  span_not_quote (v ++ String dquote r) = (v, String dquote r).
Proof.
  induction v as [|x v IH]; intros H.
  - reflexivity.
  - apply no_quote_cons in H as [Hx Hv].
    change (String x v ++ String dquote r) with (String x (v ++ String dquote r)).
    cbn [span_not_quote]. now rewrite Hx, (IH Hv).
Qed.

(** A quoted attribute value is read back as it was written. *)
Lemma quoted_app (v r : string) :
  v <> "" -> includes v dq = false ->
  quoted (v ++ dq ++ r) = Some (v, r).
Proof.
  intros Hv Hq. unfold quoted. change (dq ++ r) with (String dquote r).
  rewrite (span_not_quote_app v r Hq). now destruct v.
Qed.

(** A body is read back up to the first end marker. *)
Lemma tool_body_app (b rest : string) :
  includes b "</tool>" = false ->
  tool_body (">" ++ b ++ "</tool>" ++ rest) = Some (b, rest).
Proof.
  intros Hb. unfold tool_body.
  rewrite (strip_prefix_app ">" (b ++ "</tool>" ++ rest)).
  now apply (find_exact "<" "/tool>" b rest).
Qed.

(** The pattern tried at the start of a well-formed block reads the block
    back and stops right after it. *)
Lemma tool_at_full (m : ToolMatch) (rest : string) :
  well_formed m -> tool_at (full_text m ++ rest) = Some (m, rest).
Proof.
  destruct m as [c p b]. unfold well_formed, full_text; cbn [code path content].
  intros (Hc & Hcq & Hp & Hb). unfold tool_at.
  rewrite !sapp_assoc, strip_prefix_app2, (quoted_app c _ Hc Hcq).
  unfold tool_attrs. destruct p as [p|].
  - destruct Hp as [Hp Hpq].
    rewrite !sapp_assoc, strip_prefix_app2.
    rewrite (quoted_app p _ Hp Hpq), (tool_body_app b rest Hb). reflexivity.
  - change ("" ++ ">" ++ b ++ "</tool>" ++ rest) with (">" ++ b ++ "</tool>" ++ rest).
    rewrite (tool_body_app b rest Hb). reflexivity.
Qed.

(** A match starts with the opening marker. *)
Lemma tool_at_marker (s : string) m rest :
  tool_at s = Some (m, rest) -> is_Some (strip_prefix marker s).
Proof.
  unfold tool_at, marker.
  destruct (strip_prefix ("<tool code=" ++ dq) s); [eauto | discriminate].
Qed.
Lemma marker_eq : marker = String "<" ("tool code=" ++ dq).
Proof. reflexivity. Qed.

Lemma full_text_marker (m : ToolMatch) : exists x, full_text m = marker ++ x.
Proof.
  unfold full_text, marker. eexists. rewrite <- sapp_assoc. reflexivity.
Qed.

(** In plain text, and in plain text followed by a block, the pattern
    matches at no position of the text. *)
Lemma tool_at_plain (s a b : string) :
  plain s -> s = a ++ b -> tool_at b = None.
Proof.
  intros Hs ->. destruct (tool_at b) as [[m rest]|] eqn:Hb; [|reflexivity].
  apply tool_at_marker, strip_prefix_includes in Hb.
  apply (includes_suffix_true a) in Hb. unfold plain in Hs. congruence.
Qed.

Lemma tool_at_gap (gap a b : string) (m : ToolMatch) (rest : string) :
  plain gap -> gap = a ++ b -> b <> "" ->
  tool_at (b ++ full_text m ++ rest) = None.
Proof.
  intros Hg -> Hb.
  destruct (tool_at (b ++ full_text m ++ rest)) as [[m' rest']|] eqn:Ht;
    [|reflexivity].
  apply tool_at_marker in Ht.
  destruct (full_text_marker m) as [x Hx]. rewrite Hx, sapp_assoc in Ht.
  rewrite marker_eq in Ht.
  apply strip_prefix_border in Ht; [|reflexivity|assumption].
  apply strip_prefix_includes in Ht. rewrite <- marker_eq in Ht.
  apply (includes_suffix_true a) in Ht. unfold plain in Hg. congruence.
Qed.

(** The first match in a text that starts with plain text and a
    well-formed block is that block. *)
Lemma exec_block (gap : string) (m : ToolMatch) (rest : string) :
  plain gap -> well_formed m ->
  exec tool_at (gap ++ full_text m ++ rest) = Some (gap, m, rest).
Proof.
  intros Hg Hm. rewrite exec_skip.
  - rewrite exec_eq, (tool_at_full m rest Hm). now rewrite sapp_nil_r.
  - intros a b Hab Hb. now apply (tool_at_gap gap a b).
Qed.

Lemma full_text_length (m : ToolMatch) : 1 <= String.length (full_text m).
Proof.
  destruct (full_text_marker m) as [x ->]. rewrite slength_app.
  change (String.length marker) with 12. lia.
Qed.

(** The matches of an assembled reply are its blocks, in order, and the
    text between them is what is left. *)
Lemma exec_all_reply (blocks : list (string * ToolMatch)) (tail : string) (fuel : nat) :
  Forall (fun gm => plain (fst gm) /\ well_formed (snd gm)) blocks ->
  plain tail ->
  String.length (reply blocks tail) <= fuel ->
  exec_all fuel (reply blocks tail) = (blocks, tail).
Proof.
  intros Hb Ht. revert fuel. induction Hb as [|[gap m] bs [Hg Hm] _ IH];
    intros fuel Hf; cbn [reply].
  - destruct fuel as [|fuel]; [reflexivity|]. cbn [exec_all].
    rewrite exec_none; [reflexivity|].
    intros a b Hab. now apply (tool_at_plain tail a b).
  - cbn [reply] in Hf. rewrite !slength_app in Hf.
    pose proof (full_text_length m) as Hl.
    destruct fuel as [|fuel]; [lia|]. cbn [exec_all fst snd] in *.
    rewrite (exec_block gap m _ Hg Hm), IH; [reflexivity | lia].
Qed.

(** Whatever the answer, the body of a match ends at the first end
    marker: it does not hold the end marker itself. *)
Lemma tool_at_body (s : string) (m : ToolMatch) (rest : string) :
  tool_at s = Some (m, rest) -> includes (Regex.content m) "</tool>" = false.
Proof.
  assert (forall t b r, tool_body t = Some (b, r) -> includes b "</tool>" = false)
    as Hbody.
  { intros t b r. unfold tool_body. destruct (strip_prefix ">" t); [|discriminate].
    apply find_before_free. discriminate. }
  unfold tool_at. destruct (strip_prefix _ s) as [r1|]; [|discriminate].
  destruct (quoted r1) as [[c r2]|]; [|discriminate]. unfold tool_attrs.
  destruct (strip_prefix _ r2) as [r3|].
  - destruct (quoted r3) as [[q r4]|].
    + destruct (tool_body r4) as [[b r]|] eqn:Hb4.
      * intros [= <- <-]. now apply (Hbody r4 b r).
      * destruct (tool_body r2) as [[b r]|] eqn:Hb2; [|discriminate].
        intros [= <- <-]. now apply (Hbody r2 b r).
    + destruct (tool_body r2) as [[b r]|] eqn:Hb2; [|discriminate].
      intros [= <- <-]. now apply (Hbody r2 b r).
  - destruct (tool_body r2) as [[b r]|] eqn:Hb2; [|discriminate].
    intros [= <- <-]. now apply (Hbody r2 b r).
Qed.

Lemma exec_all_sound (fuel : nat) (s : string) (pre : string) (m : ToolMatch) :
  In (pre, m) (fst (exec_all fuel s)) ->
  exists t rest, tool_at t = Some (m, rest).
Proof.
  revert s; induction fuel as [|fuel IH]; intros s; cbn [exec_all].
  - intros [].
  - destruct (exec tool_at s) as [[[pre' m'] rest]|] eqn:He; [|intros []].
    destruct (exec_all fuel rest) as [ms tail] eqn:Hr. cbn [fst In].
    intros [[= <- <-]|Hin].
    + apply exec_sound in He as (t & _ & Ht). eauto.
    + apply (IH rest). now rewrite Hr.
Qed.

Lemma matched_body_has_no_end_marker (answer : string) (m : ToolMatch) :
  In m (tool_matches answer) -> includes (Regex.content m) "</tool>" = false.
Proof.
  unfold tool_matches. intros Hin. apply in_map_iff in Hin as ([pre m'] & <- & Hin).
  apply exec_all_sound in Hin as (t & rest & Ht). now apply (tool_at_body t _ rest).
Qed.

Lemma trimStart_suffix (s : string) : exists a, s = a ++ trimStart s.
Proof.
  induction s as [|c s [a IH]].
  - now exists "".
  - cbn [trimStart]. destruct (is_space c).
    + exists (String c a). cbn [String.append]. now rewrite <- IH.
    + now exists "".
Qed.

Lemma trimEnd_prefix (s : string) : exists b, s = trimEnd s ++ b.
Proof.
  induction s as [|c s [b IH]].
  - now exists "".
  - cbn [trimEnd]. destruct (trimEnd s) as [|x t] eqn:Ht.
    + destruct (is_space c).
      * now exists (String c s).
      * exists s. reflexivity.
    + exists b. rewrite IH at 1. reflexivity.
Qed.

(** Trimming cannot create an occurrence. *)
Lemma includes_trim_false (s p : string) :
  includes s p = false -> includes (trim s) p = false.
Proof.
  intros H. destruct (trimStart_suffix s) as [a Ha].
  destruct (trimEnd_prefix (trimStart s)) as [b Hb].
  apply (includes_app_false a (trim s) b). unfold trim.
  now rewrite <- Hb, <- Ha.
Qed.

End ParserFacts.

(* ===================================================================== *)
(** ** Properties of the directive parser *)
(* ===================================================================== *)

Section ParserProperties.
Import Js Regex Spec.

(** C1 (as amended).  For a reply made of N well-formed directive blocks
    separated by text in which no directive opens, the parser returns
    exactly the N directives, in the order of the text, each body ending
    at the first end marker; the narrative posted to the webview is the
    text outside the blocks, trimmed; and the narrative holds none of the
    matched blocks whenever no directive opens in that outside text. *)
Theorem parser_extracts_blocks_in_order
    (blocks : list (string * ToolMatch)) (tail : string) :
  Forall (fun gm => plain (fst gm) /\ well_formed (snd gm)) blocks ->
  plain tail ->
  tool_matches (reply blocks tail) = map snd blocks /\
  List.length (tool_matches (reply blocks tail)) = List.length blocks /\
  Agent.narrative (reply blocks tail) = trim (outside blocks tail) /\
  (plain (outside blocks tail) ->
   forall m, In m (map snd blocks) ->
     includes (Agent.narrative (reply blocks tail)) (full_text m) = false).
Proof.
  intros Hb Ht.
  pose proof (exec_all_reply blocks tail _ Hb Ht (Nat.le_refl _)) as He.
  assert (tool_matches (reply blocks tail) = map snd blocks) as Hm
    by (unfold tool_matches; now rewrite He).
  assert (Agent.narrative (reply blocks tail) = trim (outside blocks tail)) as Hn
    by (unfold Agent.narrative, strip_tools; now rewrite He).
  repeat split; try assumption.
  - rewrite Hm. apply length_map.
  - intros Hp m _. rewrite Hn.
    destruct (includes (trim (outside blocks tail)) (full_text m)) eqn:Hi;
      [|reflexivity].
    apply includes_true_iff in Hi as (a & b & Hi).
    destruct (full_text_marker m) as [x Hx]. rewrite Hx, sapp_assoc in Hi.
    assert (includes (trim (outside blocks tail)) marker = true) as Hc
      by (apply includes_true_iff; eauto).
    rewrite (includes_trim_false _ _ Hp) in Hc. discriminate.
Qed.

(** A reply with two blocks, one with a path and one without. *)
Lemma parser_extracts_blocks_in_order_witness :
  let w := mkToolMatch "write_file" (Some "a.ts") "body" in
  let l := mkToolMatch "list_files" None "" in
  let answer := reply [("hi ", w); (" mid ", l)] " end " in
  tool_matches answer = [w; l] /\
  List.length (tool_matches answer) = 2 /\
  Agent.narrative answer = "hi  mid  end" /\
  (plain "hi  mid  end " ->
   forall m, In m [w; l] -> includes (Agent.narrative answer) (full_text m) = false).
Proof.
  apply (parser_extracts_blocks_in_order
           [("hi ", mkToolMatch "write_file" (Some "a.ts") "body");
            (" mid ", mkToolMatch "list_files" None "")] " end ").
  - repeat constructor; try reflexivity; discriminate.
  - reflexivity.
Defined.

(** C1, the counterexample.  The reply holds one well-formed block between
    two texts in which no directive opens; the parser returns that one
    directive, and the narrative, made of the two texts put side by side,
    is the very text of the block. *)
Lemma narrative_can_hold_a_matched_block :
  let m := mkToolMatch "a" None "x" in
  let gap := "<tool co" in
  let tail := "de=" ++ dq ++ "a" ++ dq ++ ">x</tool>" in
  let answer := reply [(gap, m)] tail in
  well_formed m /\ plain gap /\ plain tail /\
  tool_matches answer = [m] /\
  Agent.narrative answer = full_text m /\
  includes (Agent.narrative answer) (full_text m) = true.
Proof.
  repeat split; try reflexivity; discriminate.
Qed.

End ParserProperties.

(* ===================================================================== *)
(** ** Properties of the gateway *)
(* ===================================================================== *)

(** Running a gateway method by hand: the filesystem calls and the
    combinators of [Gw] are unfolded, the binds last. *)
Ltac gw_unfold :=
  unfold Fs.readFile, Fs.writeFile, Fs.copy, Fs.stat, Fs.readDirectory,
    Gateway.requireWorkspace, Fs.record, Fs.throw, Fs.ret, Fs.bind.

Section GatewayFacts.
Import Js Regex Fs Gateway Spec.

Lemma isIgnored_true_iff (p : string) :
  isIgnored p = true <-> under_ignored_directory p.
Proof.
  unfold isIgnored, under_ignored_directory. rewrite existsb_exists.
  split; intros (pat & Hin & H); exists pat; (split; [exact Hin|]).
  - apply orb_true_iff in H as [H|H].
    + left. apply includes_true_iff in H as (a & b & H). now exists a, b.
    + right. apply startsWith_true_iff in H as (b & H). now exists b.
  - apply orb_true_iff. destruct H as [(a & b & H)|(b & H)].
    + left. apply includes_true_iff. now exists a, b.
    + right. apply startsWith_true_iff. now exists b.
Qed.

(** A region found by the pattern of [_replaceLines] is a region of the
    body. *)
Lemma match_region_sound (tag body r : string) :
  match_region tag body = Some r -> has_region tag body.
Proof.
  unfold match_region.
  destruct (exec (region_at tag) body) as [[[pre m] rest]|] eqn:He; [|discriminate].
  intros _. apply exec_sound in He as (t & -> & Ht). unfold region_at in Ht.
  destruct (strip_prefix ("<" ++ tag ++ ">") t) as [u|] eqn:Hs; [|discriminate].
  apply strip_prefix_Some in Hs as ->. apply find_sound in Ht as ->.
  now exists pre, m, rest.
Qed.

Lemma readFile_ignored (w : World) (root p : string) :
  workspaceFolders w = Some root -> isIgnored p = true ->
  _readFile p w = (Err (AccessDenied p), w).
Proof.
  intros Hw Hi. unfold _readFile, bind, requireWorkspace, throw.
  now rewrite Hw, Hi.
Qed.

Lemma writeFile_ignored (E : Env) (w : World) (root p c : string) :
  workspaceFolders w = Some root -> isIgnored p = true ->
  _writeFile E p c w = (Err (AccessDenied p), w).
Proof.
  intros Hw Hi. unfold _writeFile, bind, requireWorkspace, throw.
  now rewrite Hw, Hi.
Qed.

(** C6 (as amended).  When the name of an ignored directory is a whole
    segment of the normalised path, followed by a slash (inside the path
    or at its start), [readFile] and [writeFile] fail with [AccessDenied]
    and leave the world as it was: no file is touched and the trace of
    I/O calls does not grow. *)
Theorem ignored_paths_are_denied_without_io
    (E : Env) (w : World) (root p c : string) :
  workspaceFolders w = Some root ->
  under_ignored_directory p ->
  _readFile p w = (Err (AccessDenied p), w) /\
  _writeFile E p c w = (Err (AccessDenied p), w).
Proof.
  intros Hw Hp. apply isIgnored_true_iff in Hp. split.
  - now apply (readFile_ignored w root).
  - now apply (writeFile_ignored E w root).
Qed.

(** The two calls named by the specification. *)
Lemma ignored_paths_are_denied_without_io_witness :
  let w := Sample.workspace [(["node_modules"; "x.txt"], "secret")] in
  _readFile "node_modules/x.txt" w = (Err (AccessDenied "node_modules/x.txt"), w) /\
  _writeFile (Sample.env Sample.model_done) "node_modules/x.txt" "y" w
  = (Err (AccessDenied "node_modules/x.txt"), w).
Proof.
  apply (ignored_paths_are_denied_without_io
           (Sample.env Sample.model_done)
           (Sample.workspace [(["node_modules"; "x.txt"], "secret")])
           "/ws" "node_modules/x.txt" "y").
  - reflexivity.
  - exists "node_modules". split; [simpl; tauto|].
    right. exists "x.txt". reflexivity.
Defined.

Example writeFile_build_denied :
  let w := Sample.workspace [] in
  _writeFile (Sample.env Sample.model_done) "build/y.txt" "y" w
  = (Err (AccessDenied "build/y.txt"), w).
Proof. reflexivity. Qed.

(** C6, the counterexample.  The path [library/a.ts] starts with the
    ignored name [lib], [src/cabinet.ts] contains the ignored name [bin],
    and the file [.env] of the root bears an ignored name; none of them
    runs through an ignored directory, and all are read and written. *)
Lemma path_naming_an_ignored_directory_is_served :
  let E := Sample.env Sample.model_done in
  let w := Sample.workspace
             [(["library"; "a.ts"], "x"); (["src"; "cabinet.ts"], "z");
              ([".env"], "KEY=1")] in
  names_ignored_directory "library/a.ts" /\
  names_ignored_directory "src/cabinet.ts" /\
  names_ignored_directory ".env" /\
  fst (_readFile "library/a.ts" w) = Ok "x" /\
  trace (snd (_readFile "library/a.ts" w)) = [ReadFile ["library"; "a.ts"]] /\
  fst (_readFile "src/cabinet.ts" w) = Ok "z" /\
  fst (_readFile ".env" w) = Ok "KEY=1" /\
  fst (_writeFile E "library/a.ts" "y" w) = Ok "Written to library/a.ts" /\
  files (snd (_writeFile E "library/a.ts" "y" w)) !! ["library"; "a.ts"] = Some "y".
Proof.
  repeat split.
  - exists "lib". split; [simpl; tauto | right; reflexivity].
  - exists "bin". split; [simpl; tauto | left; reflexivity].
  - exists ".env". split; [simpl; tauto | right; reflexivity].
Qed.

Lemma has_char_app (c : ascii) (a b : string) :
  has_char c (a ++ b) = has_char c a || has_char c b.
Proof.
  induction a as [|x a IH]; [reflexivity|].
  change (String x a ++ b) with (String x (a ++ b)). cbn [has_char].
  now rewrite IH, orb_assoc.
Qed.

End GatewayFacts.

(* ===================================================================== *)
(** ** Facts about the file store *)
(* ===================================================================== *)

Section FsFacts.
Import Js Fs.

Implicit Types (fs base : gmap (list string) string) (k d s t : list string).

Lemma below_Some d k rest : below d k = Some rest -> k = (d ++ rest)%list.
Proof.
  revert k; induction d as [|x d IH]; intros k H; cbn [below] in H.
  - now inversion H.
  - destruct k as [|y k]; [discriminate|].
    destruct (String.eqb_spec x y) as [->|]; [|discriminate].
    cbn. now rewrite <- (IH k H).
Qed.

Lemma below_app d rest : below d (d ++ rest)%list = Some rest.
Proof.
  induction d as [|x d IH]; cbn [below app]; [reflexivity|].
  now rewrite String.eqb_refl.
Qed.

Lemma under_true_iff d k : under d k = true <-> exists rest, k = (d ++ rest)%list.
Proof.
  unfold under. split.
  - destruct (below d k) as [rest|] eqn:H; [|discriminate].
    intros _. exists rest. now apply below_Some.
  - intros [rest ->]. now rewrite below_app.
Qed.

Lemma under_refl d : under d d = true.
Proof. apply under_true_iff. exists []. now rewrite app_nil_r. Qed.

(** Two paths of one segment lie apart when the segments differ. *)
Lemma apart_segments (a b : string) : a <> b -> apart [a] [b] = true.
Proof.
  intros H. unfold apart, under. cbn [below].
  destruct (String.eqb_spec a b); [contradiction|].
  destruct (String.eqb_spec b a); [congruence|]. reflexivity.
Qed.

Lemma prune_lookup t fs k :
  prune t fs !! k = if under t k then None else fs !! k.
Proof.
  unfold prune. destruct (under t k) eqn:Hu.
  - apply map_lookup_filter_None. right. intros v _. cbn [fst]. congruence.
  - destruct (fs !! k) as [v|] eqn:Hk.
    + apply map_lookup_filter_Some. split; [exact Hk | exact Hu].
    + apply map_lookup_filter_None. now left.
Qed.

Lemma graft_list_lookup s t (l : list (list string * string)) base k :
  foldr (fun kv acc =>
           match below s (fst kv) with
           | Some rest => <[(t ++ rest)%list := snd kv]> acc
           | None => acc
           end) base l !! k
  = match below t k with
    | Some rest =>
        match (list_to_map l : gmap (list string) string) !! (s ++ rest)%list with
        | Some v => Some v
        | None => base !! k
        end
    | None => base !! k
    end.
Proof.
  induction l as [|[k' v'] l IH]; cbn [foldr fst snd].
  - rewrite list_to_map_nil. destruct (below t k); [|reflexivity].
    now rewrite lookup_empty.
  - rewrite list_to_map_cons. destruct (below s k') as [rest'|] eqn:Hb.
    + apply below_Some in Hb as ->.
      destruct (decide (k = (t ++ rest')%list)) as [->|Hne].
      * now rewrite lookup_insert_eq, below_app, lookup_insert_eq.
      * rewrite lookup_insert_ne by congruence. rewrite IH.
        destruct (below t k) as [rest|] eqn:Ht; [|reflexivity].
        apply below_Some in Ht as ->.
        rewrite lookup_insert_ne; [reflexivity|].
        intros H. apply app_inv_head in H. congruence.
    + rewrite IH. destruct (below t k) as [rest|] eqn:Ht; [|reflexivity].
      rewrite lookup_insert_ne; [reflexivity|].
      intros ->. now rewrite below_app in Hb.
Qed.

Lemma graft_lookup s t fs base k :
  graft s t fs base !! k
  = match below t k with
    | Some rest =>
        match fs !! (s ++ rest)%list with
        | Some v => Some v
        | None => base !! k
        end
    | None => base !! k
    end.
Proof.
  unfold graft. rewrite graft_list_lookup. now rewrite list_to_map_to_list.
Qed.

(** A file copied over [t]: the copy is at [t], nothing is left below
    [t], and the rest is as it was. *)
Lemma copied_lookup_file s t fs v k :
  fs !! s = Some v ->
  copied s t fs !! k
  = if bool_decide (k = t) then Some v
    else if under t k then None else fs !! k.
Proof.
  intros Hs. unfold copied. rewrite Hs. case_bool_decide as Hk.
  - subst k. apply lookup_insert_eq.
  - rewrite lookup_insert_ne by congruence. apply prune_lookup.
Qed.

(** A folder copied over [t]: below [t] lies what lies below the folder,
    and the rest is as it was. *)
Lemma copied_lookup_folder s t fs k :
  fs !! s = None ->
  copied s t fs !! k
  = match below t k with
    | Some rest => fs !! (s ++ rest)%list
    | None => fs !! k
    end.
Proof.
  intros Hs. unfold copied. rewrite Hs, graft_lookup, prune_lookup. unfold under.
  destruct (below t k) as [rest|]; [|reflexivity].
  now destruct (fs !! (s ++ rest)%list).
Qed.

(** Whatever is copied, nothing changes outside the target. *)
Lemma copied_outside s t fs k :
  under t k = false -> copied s t fs !! k = fs !! k.
Proof.
  intros Hu. destruct (fs !! s) as [v|] eqn:Hs.
  - rewrite (copied_lookup_file s t fs v k Hs), Hu.
    case_bool_decide as Hk; [|reflexivity].
    subst k. now rewrite under_refl in Hu.
  - rewrite (copied_lookup_folder s t fs k Hs). unfold under in Hu.
    now destruct (below t k).
Qed.

Lemma isDirectory_above fs d k v x rest :
  fs !! k = Some v -> below d k = Some (x :: rest) -> isDirectory fs d = true.
Proof.
  intros Hk Hb. unfold isDirectory. apply orb_true_iff. right.
  apply existsb_exists. exists k. split; [|now rewrite Hb].
  apply in_map_iff. exists (k, v). split; [reflexivity|].
  now apply list_elem_of_In, elem_of_map_to_list.
Qed.

Lemma kind_file fs k v : fs !! k = Some v -> kind fs k = Some File.
Proof. intros H. unfold kind. now rewrite H. Qed.

(** Where nothing exists, nothing lies below. *)
Lemma kind_None_under fs d k : kind fs d = None -> under d k = true -> fs !! k = None.
Proof.
  unfold kind. intros Hk Hu.
  destruct (fs !! d) eqn:Hd; [discriminate|].
  destruct (isDirectory fs d) eqn:Hdir; [discriminate|].
  unfold under in Hu. destruct (below d k) as [[|x rest]|] eqn:Hb; [| |discriminate].
  - apply below_Some in Hb. rewrite app_nil_r in Hb. now subst.
  - destruct (fs !! k) as [v|] eqn:Hv; [|reflexivity].
    now rewrite (isDirectory_above fs d k v x rest Hv Hb) in Hdir.
Qed.

Lemma prune_nothing fs d : kind fs d = None -> prune d fs = fs.
Proof.
  intros Hk. apply map_eq. intros k. rewrite prune_lookup.
  destruct (under d k) eqn:Hu; [|reflexivity].
  symmetry. now apply (kind_None_under fs d k).
Qed.

Lemma below_trans d s k r1 r2 :
  below d s = Some r1 -> below s k = Some r2 -> below d k = Some (r1 ++ r2)%list.
Proof.
  intros H1 H2. apply below_Some in H1, H2. subst.
  rewrite <- app_assoc. apply below_app.
Qed.

(** What contains something that exists is a folder, or the thing. *)
Lemma kind_above fs d s (ty : FileType) :
  kind fs s = Some ty -> under d s = true -> exists ty', kind fs d = Some ty'.
Proof.
  intros Hk Hu. unfold under in Hu.
  destruct (below d s) as [r1|] eqn:Hb; [|discriminate]. clear Hu.
  unfold kind. destruct (fs !! d) eqn:Hd; [eauto|].
  assert (isDirectory fs d = true) as ->; [|eauto].
  unfold kind in Hk. destruct (fs !! s) as [v|] eqn:Hs.
  - destruct r1 as [|x r1].
    + apply below_Some in Hb. rewrite app_nil_r in Hb. congruence.
    + now apply (isDirectory_above fs d s v x r1).
  - destruct (isDirectory fs s) eqn:Hdir; [|discriminate].
    unfold isDirectory in *. apply orb_true_iff in Hdir as [Hdots|Hex];
      apply orb_true_iff.
    + left. apply below_Some in Hb. subst s.
      rewrite forallb_app in Hdots. now apply andb_true_iff in Hdots as [? _].
    + right. apply existsb_exists in Hex as (k & Hin & Hk').
      apply existsb_exists. exists k. split; [exact Hin|].
      destruct (below s k) as [[|x r2]|] eqn:Hsk; try discriminate.
      rewrite (below_trans d s k r1 (x :: r2) Hb Hsk).
      now destruct r1.
Qed.

(** What [copy] leaves behind: the call is recorded, and either the files
    are as they were, or the target was deleted, or the copy was made. *)
Lemma copy_world s t (w : World) :
  let w' := snd (copy s t w) in
  workspaceFolders w' = workspaceFolders w /\
  readonly w' = readonly w /\
  ticks w' = ticks w /\
  trace w' = (trace w ++ [Copy s t])%list /\
  (files w' = files w
   \/ files w' = copied s t (files w) /\ (exists ty, kind (files w) s = Some ty)
   \/ files w' = prune t (files w) /\ kind (files w) s = None).
Proof.
  unfold copy, bind, record. cbn [fst snd files readonly set_trace].
  case_bool_decide; [destruct (kind (files w) t); repeat split; now left|].
  destruct (under s t); [repeat split; now left|].
  destruct (match kind (files w) t with Some _ => under t s | None => false end);
    [repeat split; now left|].
  case_bool_decide; [repeat split; now left|].
  destruct (kind (files w) s) eqn:Hk; repeat split; eauto.
Qed.

(** A copy that is made: the source exists, the two paths lie apart and
    the target can be written. *)
Lemma copy_made s t (w : World) (ty : FileType) :
  kind (files w) s = Some ty -> apart s t = true -> t ∉ readonly w ->
  copy s t w
  = (Ok tt,
     mkWorld (workspaceFolders w) (copied s t (files w)) (readonly w) (ticks w)
       (trace w ++ [Copy s t])).
Proof.
  intros Hk Ha Hro. unfold apart in Ha. apply andb_true_iff in Ha as [Hst Hts].
  apply negb_true_iff in Hst, Hts.
  unfold copy, bind, record. cbn [fst snd files readonly set_trace].
  rewrite bool_decide_eq_false_2 by (intros ->; now rewrite under_refl in Hst).
  rewrite Hst, Hts, Hk.
  destruct (kind (files w) t); now rewrite bool_decide_eq_false_2 by exact Hro.
Qed.

(** A copy of something that exists, when it is refused or fails, leaves
    the files alone. *)
Lemma copy_not_made s t (w : World) (ty : FileType) :
  kind (files w) s = Some ty ->
  apart s t = false \/ t ∈ readonly w ->
  files (snd (copy s t w)) = files w.
Proof.
  intros Hk H. unfold copy, bind, record. cbn [fst snd files readonly set_trace].
  case_bool_decide; [now destruct (kind (files w) t)|].
  destruct (under s t) eqn:Hst; [reflexivity|].
  destruct (under t s) eqn:Hts.
  - destruct (kind_above (files w) t s ty Hk Hts) as [ty' ->]. reflexivity.
  - destruct H as [H|H]; [unfold apart in H; now rewrite Hst, Hts in H|].
    rewrite (bool_decide_eq_true_2 _ H). now destruct (kind (files w) t).
Qed.


End FsFacts.

(* ===================================================================== *)
(** ** Malformed directives and the shell *)
(* ===================================================================== *)

Section DirectiveProperties.
Import Js Regex Fs Gateway Spec.

Lemma replaceLines_malformed (E : Env) (p body : string) (w : World) :
  ~ has_region "search" body \/ ~ has_region "replace" body ->
  _replaceLines E p body w =
  match workspaceFolders w with
  | Some _ => (Err MalformedDirective, w)
  | None => (Err NoWorkspace, w)
  end.
Proof.
  intros H. unfold _replaceLines, bind, requireWorkspace, throw.
  destruct (workspaceFolders w); [|reflexivity].
  destruct (match_region "search" body) as [sv|] eqn:Hs; [|reflexivity].
  destruct (match_region "replace" body) as [rv|] eqn:Hr; [|reflexivity].
  apply match_region_sound in Hs, Hr. tauto.
Qed.

(** C5 (as amended).  A [replace_lines] directive whose body lacks a
    [<search>] region or a [<replace>] region fails and leaves the world
    as it was: no file is read, backed up or written, the trace of I/O
    calls does not grow.  With a workspace open the failure is
    [MalformedDirective]; without one it is [NoWorkspace], which is
    checked first. *)
Theorem malformed_replace_lines_touches_nothing
    (E : Env) (m : ToolMatch) (w : World) :
  Regex.code m = "replace_lines" ->
  ~ has_region "search" (Regex.content m)
  \/ ~ has_region "replace" (Regex.content m) ->
  (exists e, Agent.dispatch E m w = (Err e, w)) /\
  (forall root, workspaceFolders w = Some root ->
     Agent.dispatch E m w = (Err MalformedDirective, w)) /\
  (workspaceFolders w = None -> Agent.dispatch E m w = (Err NoWorkspace, w)).
Proof.
  intros Hc Hr. unfold Agent.dispatch. rewrite Hc. cbn [String.eqb Ascii.eqb Bool.eqb].
  rewrite (replaceLines_malformed E _ _ w Hr). split; [|split].
  - destruct (workspaceFolders w); eauto.
  - now intros root ->.
  - now intros ->.
Qed.

(** A body with its search region and no replace region, sent against an
    existing file. *)
Lemma malformed_replace_lines_touches_nothing_witness :
  let E := Sample.env Sample.model_done in
  let w := Sample.workspace [(["a.ts"], "old")] in
  let m := mkToolMatch "replace_lines" (Some "a.ts") "<search>old</search>" in
  Agent.dispatch E m w = (Err MalformedDirective, w).
Proof.
  intros E w m.
  refine (proj1 (proj2 (malformed_replace_lines_touches_nothing E m w eq_refl _))
            "/ws" eq_refl).
  right. intros (a & x & b & H).
  assert (includes "<search>old</search>" "<replace>" = true) as Hi
    by (apply includes_true_iff; exists a, (x ++ "</replace>" ++ b); exact H).
  discriminate Hi.
Defined.

(** C5, the counterexample.  The same directive, sent while no folder is
    open: the failure is [NoWorkspace], with the message [No workspace],
    and not [MalformedDirective]. *)
Lemma malformed_replace_lines_without_workspace :
  let E := Sample.env Sample.model_done in
  let w := mkWorld None {[ ["a.ts"] := "old" ]} ∅ 0 [] in
  let m := mkToolMatch "replace_lines" (Some "a.ts") "<search>old</search>" in
  match_region "replace" (Regex.content m) = None /\
  Agent.dispatch E m w = (Err NoWorkspace, w) /\
  message NoWorkspace = "No workspace" /\
  fst (Agent.dispatch E m w) <> Err MalformedDirective.
Proof. repeat split. discriminate. Qed.

(** C8 (as amended).  With a workspace open, [runCommand] resolves
    whenever [cp.exec] accepts the command, whatever the child process
    did: when the callback receives an error (a non-zero exit status, or
    the name of the system error when the shell could not be started) the
    result is the success-level text [Exit Code: <code>], a line break and
    the combined output; otherwise it is the combined output, or [Done]
    when there is none.  It throws in one case only: [cp.exec] itself
    throws before it starts anything, which it does for the empty command
    and for the commands that the host refuses; then nothing is run. *)
Theorem runCommand_resolves_unless_exec_throws
    (E : Env) (w : World) (root command : string) :
  workspaceFolders w = Some root ->
  let o := fst (shell E command root w) in
  (forall thrown, execThrows E command = Some thrown ->
     _runCommand E command w = (Err (ExecError thrown), w)) /\
  (command = "" -> exists thrown, _runCommand E command w = (Err (ExecError thrown), w)) /\
  (execThrows E command = None ->
     (forall e, fst (_runCommand E command w) <> Err e) /\
     (forall n, exec_err o = Some (ExitStatus n) ->
        fst (_runCommand E command w)
        = Ok ("Exit Code: " ++ pretty n ++ nl ++ combinedOutput o)) /\
     (forall name, exec_err o = Some (SystemCode name) ->
        fst (_runCommand E command w)
        = Ok ("Exit Code: " ++ name ++ nl ++ combinedOutput o)) /\
     (exec_err o = None ->
        fst (_runCommand E command w)
        = Ok (if String.eqb (combinedOutput o) "" then "Done" else combinedOutput o))).
Proof.
  intros Hw o. subst o. unfold _runCommand, bind, requireWorkspace. rewrite Hw.
  split; [|split].
  - now intros thrown ->.
  - intros ->. eexists. reflexivity.
  - intros ->. destruct (shell E command root w) as [o fs]. cbn [fst].
    destruct (exec_err o) as [c|]; cbn [fst]; repeat split; try discriminate.
    + now intros n [= ->].
    + now intros name [= ->].
Qed.

(** A command that prints on both streams and exits with status 2. *)
Lemma runCommand_resolves_unless_exec_throws_witness :
  let E := Sample.env Sample.model_done in
  let w := Sample.workspace [] in
  (forall e, fst (_runCommand E "npm test" w) <> Err e) /\
  fst (_runCommand E "npm test" w)
  = Ok ("Exit Code: 2" ++ nl ++ "out" ++ nl ++ "stderr:" ++ nl ++ "err").
Proof.
  destruct (runCommand_resolves_unless_exec_throws
              (Sample.env Sample.model_done) (Sample.workspace [])
              "/ws" "npm test" eq_refl) as (_ & _ & Hruns).
  destruct (Hruns eq_refl) as (Hnever & Hexit & _).
  split; [exact Hnever | exact (Hexit 2 eq_refl)].
Defined.

(** C8, the counterexample.  The shell cannot be started: the callback
    receives the system error [ENOENT], and the result is still a
    success-level text, not an error. *)
Lemma unspawnable_command_is_not_an_error :
  let E := Sample.host Sample.clock_ms Sample.shell_missing Sample.model_done in
  let w := Sample.workspace [] in
  execThrows E "npm test" = None /\
  exec_err (fst (shell E "npm test" "/ws" w)) = Some (SystemCode "ENOENT") /\
  fst (_runCommand E "npm test" w) = Ok ("Exit Code: ENOENT" ++ nl) /\
  (forall e, fst (_runCommand E "npm test" w) <> Err e).
Proof. repeat split. discriminate. Qed.

(** A [run_command] directive whose body is blank: the command is empty
    once trimmed, [cp.exec] throws, the promise is rejected and the
    directive is recorded as an error; no process is started. *)
Example blank_command_is_refused :
  let E := Sample.env Sample.model_done in
  let st := Sample.fresh (Sample.workspace []) in
  let m := mkToolMatch "run_command" None "  " in
  Agent.dispatch E m (Agent.world st)
  = (Err (ExecError "The argument 'file' cannot be empty. Received ''"), Agent.world st) /\
  Agent.posted (Agent.run_tool E "s" st m)
  = [ Agent.ToolCall "run_command" None "running" None "s";
      Agent.ToolCall "run_command" None "error"
        (Some "The argument 'file' cannot be empty. Received ''") "s" ].
Proof. split; reflexivity. Qed.

End DirectiveProperties.

(* ===================================================================== *)
(** ** Backups *)
(* ===================================================================== *)

Section BackupFacts.
Import Js Regex Fs Gateway Spec.

(** [_createBackup], step by step: nothing at the path, and [stat] throws;
    otherwise the clock is read and the copy is attempted, its failure
    being swallowed. *)
Lemma createBackup_run (E : Env) (p : string) (f : list string) (w : World) :
  _createBackup E p f w
  = (Ok tt,
     match kind (files w) f with
     | None => set_trace w (trace w ++ [Stat f])
     | Some _ =>
         snd (copy f (backupUri E w p)
                (mkWorld (workspaceFolders w) (files w) (readonly w) (S (ticks w))
                   (trace w ++ [Stat f])))
     end).
Proof.
  unfold _createBackup, swallow, bind at 1 2, stat, bind, record, now, backupUri.
  cbn [fst snd files set_trace set_ticks ticks workspaceFolders readonly trace].
  destruct (kind (files w) f); reflexivity.
Qed.

(** Nothing at the path: [stat] throws and nothing else happens. *)
Lemma createBackup_absent (E : Env) (p : string) (f : list string) (w : World) :
  kind (files w) f = None ->
  _createBackup E p f w = (Ok tt, set_trace w (trace w ++ [Stat f])).
Proof. intros Hf. now rewrite createBackup_run, Hf. Qed.

(** A file at the path, a name for the backup that lies apart from the
    path and can be written: the copy is made, over whatever bore the
    name. *)
Lemma createBackup_made (E : Env) (p : string) (f : list string) (w : World) old :
  files w !! f = Some old ->
  apart f (backupUri E w p) = true ->
  backupUri E w p ∉ readonly w ->
  _createBackup E p f w =
  (Ok tt,
   mkWorld (workspaceFolders w)
     (<[backupUri E w p := old]> (prune (backupUri E w p) (files w)))
     (readonly w) (S (ticks w))
     ((trace w ++ [Stat f]) ++ [Copy f (backupUri E w p)])).
Proof.
  intros Hf Ha Hro. rewrite createBackup_run, (kind_file _ _ _ Hf).
  rewrite (copy_made f (backupUri E w p) _ File); [| now apply (kind_file _ _ old) | exact Ha | exact Hro].
  cbn [snd workspaceFolders files readonly ticks trace].
  unfold copied. now rewrite Hf.
Qed.

(** A backup that is refused or cannot be written changes no file. *)
Lemma createBackup_not_made (E : Env) (p : string) (f : list string) (w : World) :
  apart f (backupUri E w p) = false \/ backupUri E w p ∈ readonly w ->
  files (snd (_createBackup E p f w)) = files w.
Proof.
  intros H. rewrite createBackup_run. cbn [snd].
  destruct (kind (files w) f) as [ty|] eqn:Hk; [|reflexivity].
  now rewrite (copy_not_made _ _ _ ty).
Qed.

(** What [_createBackup] leaves behind, whatever happens. *)
Lemma createBackup_world (E : Env) (p : string) (f : list string) (w : World) :
  let w1 := snd (_createBackup E p f w) in
  fst (_createBackup E p f w) = Ok tt /\
  workspaceFolders w1 = workspaceFolders w /\
  readonly w1 = readonly w /\
  (files w1 = files w \/ files w1 = copied f (backupUri E w p) (files w)).
Proof.
  rewrite createBackup_run. cbn [fst snd].
  destruct (kind (files w) f) eqn:Hk.
  - match goal with |- context [copy ?a ?b ?w0] =>
      destruct (copy_world a b w0) as (H1 & H2 & _ & _ & H3) end.
    cbn [workspaceFolders readonly files] in H1, H2, H3.
    repeat split; try assumption.
    destruct H3 as [H3|[[H3 _]|[_ H3]]]; [now left | now right | congruence].
  - cbn [set_trace workspaceFolders readonly files]. auto.
Qed.

(** What [_writeFile] does once its two checks are passed and the target
    can be written. *)
Lemma writeFile_allowed (E : Env) (w : World) (root p c : string) :
  workspaceFolders w = Some root -> isIgnored p = false ->
  joinPath p ∉ readonly w ->
  let w1 := snd (_createBackup E p (joinPath p) w) in
  _writeFile E p c w =
  (Ok ("Written to " ++ p),
   mkWorld (workspaceFolders w1) (<[joinPath p := c]> (files w1)) (readonly w1)
     (ticks w1)
     ((trace w1 ++ [WriteFile (joinPath p) c]) ++ [OpenTextDocument (joinPath p)])).
Proof.
  intros Hw Hi Hro w1.
  destruct (createBackup_world E p (joinPath p) w) as (Hok & _ & Hr & _).
  fold w1 in Hr.
  unfold _writeFile, bind, requireWorkspace. rewrite Hw, Hi.
  assert (_createBackup E p (joinPath p) w = (Ok tt, w1)) as ->
    by (subst w1; rewrite <- Hok; now destruct (_createBackup E p (joinPath p) w)).
  clearbody w1. unfold writeFile, bind, record, swallow, ret. cbn.
  rewrite bool_decide_eq_false_2 by (rewrite Hr; exact Hro). reflexivity.
Qed.

(** C2 (as amended).  [writeFile] on a path that passes the checks and can
    be written answers [Written to <path>] and leaves the content at the
    path.  Moreover:
    - when a file exists at the path, and the name of the backup (the
      path, [.bak.] and the time stamp) lies apart from the path and can
      be written, the file is copied under that name before being
      overwritten: the backup holds the content from before the write,
      whatever bore its name is replaced, and nothing else changes; the
      backup is a new file, and the one new file, when nothing bore its
      name;
    - when nothing exists at the path, the one new file is the target: no
      backup is made;
    - when the backup is refused or cannot be written, the write is done
      all the same. *)
Theorem writeFile_backup_invariant
    (E : Env) (w : World) (root p c : string) :
  workspaceFolders w = Some root ->
  isIgnored p = false ->
  joinPath p ∉ readonly w ->
  let f := joinPath p in
  let bak := backupUri E w p in
  let w' := snd (_writeFile E p c w) in
  fst (_writeFile E p c w) = Ok ("Written to " ++ p) /\
  files w' !! f = Some c /\
  (forall old,
     files w !! f = Some old -> apart f bak = true -> bak ∉ readonly w ->
     files w' !! bak = Some old /\
     (forall k, k <> f -> under bak k = false -> files w' !! k = files w !! k) /\
     (forall k, k <> bak -> under bak k = true -> files w' !! k = None) /\
     (kind (files w) bak = None ->
        files w' = <[f := c]> (<[bak := old]> (files w)) /\
        (forall k, files w !! k = None -> (is_Some (files w' !! k) <-> k = bak))) /\
     trace w' = (trace w ++ [Stat f; Copy f bak; WriteFile f c; OpenTextDocument f])%list) /\
  (kind (files w) f = None ->
     files w' = <[f := c]> (files w) /\
     (forall k, files w !! k = None -> (is_Some (files w' !! k) <-> k = f)) /\
     trace w' = (trace w ++ [Stat f; WriteFile f c; OpenTextDocument f])%list) /\
  (forall old,
     files w !! f = Some old -> apart f bak = false \/ bak ∈ readonly w ->
     files w' = <[f := c]> (files w)).
Proof.
  intros Hw Hi Hro f bak w'. subst w'.
  rewrite (writeFile_allowed E w root p c Hw Hi Hro). cbn [fst snd files trace].
  split; [reflexivity|]. fold f. split; [apply lookup_insert_eq|].
  split; [|split].
  - intros old Hf Ha Hbw.
    rewrite (createBackup_made E p f w old Hf Ha Hbw). cbn [snd files trace]. fold bak.
    assert (f <> bak) as Hne.
    { intros Heq. unfold apart in Ha. rewrite Heq, under_refl in Ha. discriminate. }
    assert (under bak f = false) as Hbf.
    { unfold apart in Ha. apply andb_true_iff in Ha as [_ Ha].
      now apply negb_true_iff in Ha. }
    split; [|split; [|split; [|split]]].
    + rewrite lookup_insert_ne by exact Hne. apply lookup_insert_eq.
    + intros k Hkf Hu. rewrite lookup_insert_ne by congruence.
      rewrite lookup_insert_ne by (intros <-; now rewrite under_refl in Hu).
      now rewrite prune_lookup, Hu.
    + intros k Hkb Hu. rewrite lookup_insert_ne by (intros <-; congruence).
      rewrite lookup_insert_ne by congruence. now rewrite prune_lookup, Hu.
    + intros Hfree. rewrite (prune_nothing _ _ Hfree). split; [reflexivity|].
      assert (files w !! bak = None) as Hb
        by (apply (kind_None_under _ bak); [exact Hfree | apply under_refl]).
      intros k Hk. split.
      * intros [v Hv]. destruct (decide (k = bak)) as [|Hkb]; [assumption|].
        rewrite lookup_insert_ne in Hv by congruence.
        rewrite lookup_insert_ne in Hv by congruence. congruence.
      * intros ->. rewrite lookup_insert_ne by exact Hne.
        rewrite lookup_insert_eq. eauto.
    + now rewrite <- !app_assoc.
  - intros Hnone. rewrite (createBackup_absent E p f w Hnone).
    cbn [snd files trace set_trace].
    assert (files w !! f = None) as Hf
      by (apply (kind_None_under _ f); [exact Hnone | apply under_refl]).
    split; [reflexivity|]. split.
    + intros k Hk. split.
      * intros [v Hv]. destruct (decide (k = f)) as [|Hkf]; [assumption|].
        rewrite lookup_insert_ne in Hv by congruence. congruence.
      * intros ->. rewrite lookup_insert_eq. eauto.
    + now rewrite <- !app_assoc.
  - intros old Hf Hbad. now rewrite (createBackup_not_made E p f w Hbad).
Qed.

(** Overwriting [a.ts], which holds [v1], with [v2] at the first reading
    of the clock. *)
Lemma writeFile_backup_invariant_witness :
  let E := Sample.env Sample.model_done in
  let w := Sample.workspace [(["a.ts"], "v1")] in
  let w' := snd (_writeFile E "a.ts" "v2" w) in
  fst (_writeFile E "a.ts" "v2" w) = Ok "Written to a.ts" /\
  files w' !! ["a.ts.bak.2026-11-03T10-00-00-000Z"] = Some "v1" /\
  files w' !! ["a.ts"] = Some "v2" /\
  files w' = <[["a.ts"] := "v2"]>
               (<[["a.ts.bak.2026-11-03T10-00-00-000Z"] := "v1"]> (files w)).
Proof.
  intros E w w'.
  assert (joinPath "a.ts" ∉ readonly w) as Hro by apply not_elem_of_empty.
  destruct (writeFile_backup_invariant E w "/ws" "a.ts" "v2" eq_refl eq_refl Hro)
    as (Hok & Hf & Hexists & _ & _).
  destruct (Hexists "v1" eq_refl eq_refl (not_elem_of_empty _))
    as (Hbak & _ & _ & Hnew & _).
  split; [exact Hok|]. split; [exact Hbak|]. split; [exact Hf|].
  exact (proj1 (Hnew eq_refl)).
Defined.

(** Writing where nothing exists makes no backup. *)
Example writeFile_new_file_no_backup :
  let E := Sample.env Sample.model_done in
  let w' := snd (_writeFile E "a.ts" "v1" (Sample.workspace [])) in
  map_to_list (files w') = [(["a.ts"], "v1")] /\
  trace w' = [Stat ["a.ts"]; WriteFile ["a.ts"] "v1"; OpenTextDocument ["a.ts"]].
Proof. split; reflexivity. Qed.

(** C2, the counterexample.  Two overwrites of an existing file at the
    same reading of the clock share the name of their backup.  After the
    first, the file holds [v2] and the backup [v1]; the second finds a
    file at the path and creates no new backup: the files bear the same
    two names as before it, the one backup now holds [v2], and [v1] is
    lost. *)
Lemma writeFile_same_timestamp :
  let E := Sample.host Sample.clock_still Sample.shell_fails Sample.model_done in
  let w1 := snd (_writeFile E "a.ts" "v2" (Sample.workspace [(["a.ts"], "v1")])) in
  let w2 := snd (_writeFile E "a.ts" "v3" w1) in
  map_to_list (files w1)
  = [(["a.ts"], "v2"); (["a.ts.bak.2026-11-03T10-00-00-000Z"], "v1")] /\
  fst (_writeFile E "a.ts" "v3" w1) = Ok "Written to a.ts" /\
  map_to_list (files w2)
  = [(["a.ts"], "v3"); (["a.ts.bak.2026-11-03T10-00-00-000Z"], "v2")].
Proof. vm_compute. repeat split. Qed.

(** A backup that cannot be written does not stop the write. *)
Example writeFile_survives_failed_backup :
  let E := Sample.env Sample.model_done in
  let w := mkWorld (Some "/ws") {[ ["a.ts"] := "v1" ]}
             {[ ["a.ts.bak.2026-11-03T10-00-00-000Z"] ]} 0 [] in
  let w' := snd (_writeFile E "a.ts" "v2" w) in
  fst (_writeFile E "a.ts" "v2" w) = Ok "Written to a.ts" /\
  map_to_list (files w') = [(["a.ts"], "v2")].
Proof. split; reflexivity. Qed.

(** A folder at the path: [stat] succeeds, and the folder is copied, with
    the file in it, under the name of the backup. *)
Example createBackup_of_a_folder :
  let E := Sample.env Sample.model_done in
  let w := Sample.workspace [(["src"; "a.ts"], "v1")] in
  let w' := snd (_createBackup E "src" ["src"] w) in
  files w' !! ["src.bak.2026-11-03T10-00-00-000Z"; "a.ts"] = Some "v1" /\
  files w' !! ["src"; "a.ts"] = Some "v1".
Proof. split; reflexivity. Qed.

End BackupFacts.

(* ===================================================================== *)
(** ** Restoring and replacing *)
(* ===================================================================== *)

Section RestoreReplace.
Import Js Regex Fs Gateway Spec.

(** C3, at the failing input.  Three writes to [src/a.ts] leave two
    backups next to the file, in [src]; [restoreFile] lists the entries of
    the workspace root only, finds no name that starts with
    [src/a.ts.bak.], fails with [NoBackupFound] and leaves [v3] in the
    file. *)
Theorem restoreFile_misses_backups_below_the_root :
  let E := Sample.env Sample.model_done in
  let run := Sample.write3_restore E "src/a.ts" "v1" "v2" "v3" (Sample.workspace []) in
  fst run = Err (NoBackupFound "src/a.ts") /\
  files (snd run) !! ["src"; "a.ts"] = Some "v3" /\
  files (snd run) !! ["src"; "a.ts.bak.2026-11-03T10-00-00-000Z"] = Some "v1" /\
  files (snd run) !! ["src"; "a.ts.bak.2026-11-03T10-00-00-001Z"] = Some "v2" /\
  fst (readDirectory [] (snd run)) = Ok [("src", Directory)].
Proof. vm_compute. repeat split. Qed.

(** The same three writes to a file of the workspace root: the latest
    backup, which holds [v2], is copied over the file. *)
Example restoreFile_at_the_root :
  let E := Sample.env Sample.model_done in
  let run := Sample.write3_restore E "a.ts" "v1" "v2" "v3" (Sample.workspace []) in
  fst run = Ok ("Restored " ++ dq ++ "a.ts" ++ dq ++ " from backup.") /\
  files (snd run) !! ["a.ts"] = Some "v2".
Proof. vm_compute. repeat split. Qed.

(** Without a backup in the root, [restoreFile] fails. *)
Example restoreFile_without_backup :
  fst (_restoreFile (Sample.env Sample.model_done) "a.ts"
         (Sample.workspace [(["a.ts"], "v1")]))
  = Err (NoBackupFound "a.ts").
Proof. reflexivity. Qed.

(** A replacement text without a dollar sign is used as it is. *)
Lemma getSubstitution_literal (matched before after t : string) :
  has_char "$" t = false -> getSubstitution matched before after t = t.
Proof.
  induction t as [|c t IH]; intros H; [reflexivity|].
  cbn [has_char] in H. apply orb_false_iff in H as [Hc Ht].
  cbn [getSubstitution]. rewrite Ascii.eqb_sym, Hc. now rewrite (IH Ht).
Qed.

(** [_replaceLines] on a well-formed body whose search text is absent
    from the file: the failure is [SearchNotFound] and the files are as
    they were. *)
Lemma replaceLines_search_not_found
    (E : Env) (w : World) (root p body search replacement original : string) :
  workspaceFolders w = Some root ->
  match_region "search" body = Some search ->
  match_region "replace" body = Some replacement ->
  files w !! joinPath p = Some original ->
  includes original search = false ->
  fst (_replaceLines E p body w) = Err (SearchNotFound p) /\
  files (snd (_replaceLines E p body w)) = files w.
Proof.
  intros Hw Hs Hr Hf Hi.
  unfold _replaceLines, bind, requireWorkspace, readFile, record, throw.
  rewrite Hw, Hs, Hr. cbn. rewrite Hf, Hi. now cbn.
Qed.

(** [_replaceLines] on a well-formed body whose search text occurs in the
    file, step by step: the file is read, the backup is attempted, and the
    file is rewritten. *)
Lemma replaceLines_run
    (E : Env) (w : World) (root p body search replacement original : string) :
  workspaceFolders w = Some root ->
  match_region "search" body = Some search ->
  match_region "replace" body = Some replacement ->
  files w !! joinPath p = Some original ->
  includes original search = true ->
  joinPath p ∉ readonly w ->
  let f := joinPath p in
  let updated := Js.replace original search replacement in
  let w1 := snd (_createBackup E p f (set_trace w (trace w ++ [ReadFile f]))) in
  _replaceLines E p body w =
  (Ok ("Successfully updated " ++ p),
   mkWorld (workspaceFolders w1) (<[f := updated]> (files w1)) (readonly w1) (ticks w1)
     (trace w1 ++ [WriteFile f updated])).
Proof.
  intros Hw Hs Hr Hf Hi Hro f updated w1. subst f updated.
  set (w0 := set_trace w (trace w ++ [ReadFile (joinPath p)])) in *.
  assert (files w0 !! joinPath p = Some original) as Hf0 by exact Hf.
  destruct (createBackup_world E p (joinPath p) w0) as (Hok & _ & Hro1 & _).
  fold w1 in Hro1.
  assert (_createBackup E p (joinPath p) w0 = (Ok tt, w1)) as Hcb
    by (subst w1; rewrite <- Hok; now destruct (_createBackup E p (joinPath p) w0)).
  clearbody w1.
  unfold _replaceLines; gw_unfold.
  rewrite Hw, Hs, Hr. fold w0. rewrite Hf0, Hi. cbn [negb].
  rewrite Hcb. cbn [fst snd readonly set_trace].
  rewrite bool_decide_eq_false_2 by (rewrite Hro1; exact Hro). reflexivity.
Qed.

(** The backup of [_replaceLines], when its name lies apart from the path
    and can be written. *)
Lemma replaceLines_backup
    (E : Env) (w : World) (root p body search replacement original : string) :
  workspaceFolders w = Some root ->
  match_region "search" body = Some search ->
  match_region "replace" body = Some replacement ->
  files w !! joinPath p = Some original ->
  includes original search = true ->
  joinPath p ∉ readonly w ->
  apart (joinPath p) (backupUri E w p) = true ->
  backupUri E w p ∉ readonly w ->
  let f := joinPath p in
  let bak := backupUri E w p in
  let updated := Js.replace original search replacement in
  let w' := snd (_replaceLines E p body w) in
  files w' = <[f := updated]> (<[bak := original]> (prune bak (files w))) /\
  files w' !! bak = Some original /\
  trace w' = (trace w ++ [ReadFile f; Stat f; Copy f bak; WriteFile f updated])%list.
Proof.
  intros Hw Hs Hr Hf Hi Hro Ha Hbw f bak updated w'. subst w'.
  rewrite (replaceLines_run E w root p body search replacement original
             Hw Hs Hr Hf Hi Hro).
  set (w0 := set_trace w (trace w ++ [ReadFile (joinPath p)])).
  assert (backupUri E w0 p = bak) as Hb by reflexivity.
  rewrite (createBackup_made E p (joinPath p) w0 original);
    [| exact Hf | now rewrite Hb | now rewrite Hb].
  rewrite Hb. cbn [snd files trace set_trace w0]. fold f.
  split; [reflexivity|]. split.
  - rewrite lookup_insert_ne; [apply lookup_insert_eq|].
    intros Heq. unfold apart in Ha. fold f bak in Ha.
    rewrite Heq, under_refl in Ha. discriminate.
  - now rewrite <- !app_assoc.
Qed.

(** The first occurrence is replaced by the expansion of the replacement
    text, which is the replacement text itself when it holds no dollar
    sign; the rest of the file is kept. *)
Lemma replaceLines_first_occurrence
    (E : Env) (w : World)
    (root p body search replacement original before after : string) :
  workspaceFolders w = Some root ->
  match_region "search" body = Some search ->
  match_region "replace" body = Some replacement ->
  files w !! joinPath p = Some original ->
  find search original = Some (before, after) ->
  joinPath p ∉ readonly w ->
  original = before ++ search ++ after /\
  (forall b' a', original = b' ++ search ++ a' ->
     String.length before <= String.length b') /\
  fst (_replaceLines E p body w) = Ok ("Successfully updated " ++ p) /\
  files (snd (_replaceLines E p body w)) !! joinPath p
  = Some (before ++ getSubstitution search before after replacement ++ after) /\
  (has_char "$" replacement = false ->
   files (snd (_replaceLines E p body w)) !! joinPath p
   = Some (before ++ replacement ++ after)).
Proof.
  intros Hw Hs Hr Hf Hfind Hro.
  split; [now apply find_sound|].
  split; [now apply (find_first search original before after)|].
  assert (includes original search = true) as Hi
    by (unfold includes; now rewrite Hfind).
  rewrite (replaceLines_run E w root p body search replacement original
             Hw Hs Hr Hf Hi Hro).
  cbn [fst snd files]. split; [reflexivity|].
  assert (Js.replace original search replacement
          = before ++ getSubstitution search before after replacement ++ after) as ->
    by (unfold Js.replace; now rewrite Hfind).
  split; [apply lookup_insert_eq|].
  intros Hd. rewrite (getSubstitution_literal _ _ _ _ Hd). apply lookup_insert_eq.
Qed.

(** C4, at the failing input.  The file holds [cost: N]; the directive
    asks to replace [N] by the text [$$5]; the file ends up holding
    [cost: $5], then, with the replacement text [<$&>], [cost: <N>]:
    the replacement text has been expanded, not copied. *)
Theorem replaceLines_expands_dollar_patterns :
  let E := Sample.env Sample.model_done in
  let w := Sample.workspace [(["price.txt"], "cost: N")] in
  let body1 := "<search>N</search><replace>$$5</replace>" in
  let body2 := "<search>N</search><replace><$&></replace>" in
  match_region "search" body1 = Some "N" /\
  match_region "replace" body1 = Some "$$5" /\
  fst (_replaceLines E "price.txt" body1 w) = Ok "Successfully updated price.txt" /\
  files (snd (_replaceLines E "price.txt" body1 w)) !! ["price.txt"] = Some "cost: $5" /\
  match_region "replace" body2 = Some "<$&>" /\
  files (snd (_replaceLines E "price.txt" body2 w)) !! ["price.txt"] = Some "cost: <N>".
Proof. vm_compute. repeat split. Qed.

(** Only the first occurrence is replaced. *)
Example replaceLines_first_only :
  let E := Sample.env Sample.model_done in
  let w := Sample.workspace [(["a.txt"], "ab...ab")] in
  files (snd (_replaceLines E "a.txt" "<search>ab</search><replace>X</replace>" w))
    !! ["a.txt"] = Some "X...ab".
Proof. reflexivity. Qed.

End RestoreReplace.

(* ===================================================================== *)
(** ** The ignore list and the two tools that do not consult it *)
(* ===================================================================== *)

Section IgnoreList.
Import Js Regex Fs Gateway Spec.


(** [_restoreFile], step by step. *)
Lemma restoreFile_run (E : Env) (w : World) (root p : string) :
  workspaceFolders w = Some root ->
  let w0 := set_trace w (trace w ++ [ReadDirectory []]) in
  _restoreFile E p w
  = match sort_by (fun a b => localeCompare E (fst b) (fst a))
            (filter (fun e : string * FileType => startsWith (fst e) (p ++ ".bak.") = true)
               (entries [] w)) with
    | [] => (Err (NoBackupFound p), w0)
    | (latest, _) :: _ =>
        match copy (joinPath latest) (joinPath p) w0 with
        | (Ok _, w') => (Ok ("Restored " ++ dq ++ p ++ dq ++ " from backup."), w')
        | (Err e, w') => (Err e, w')
        end
    end.
Proof.
  intros Hw w0.
  unfold _restoreFile, readDirectory. unfold bind, requireWorkspace, record, throw, ret.
  rewrite Hw. cbn [fst snd]. fold w0.
  change (entries [] w0) with (entries [] w).
  destruct (sort_by _ _) as [|[latest ty] l]; [reflexivity|].
  now destruct (copy (joinPath latest) (joinPath p) w0) as [[u|e] w'].
Qed.


Lemma insert_by_In {A} (cmp : A -> A -> comparison) (x y : A) (l : list A) :
  In x (insert_by cmp y l) <-> x = y \/ In x l.
Proof.
  induction l as [|z l IH]; cbn [insert_by In].
  - intuition.
  - destruct (cmp y z); cbn [In]; rewrite ?IH; intuition.
Qed.

(** Sorting keeps the elements. *)
Lemma sort_by_In {A} (cmp : A -> A -> comparison) (x : A) (l : list A) :
  In x (sort_by cmp l) <-> In x l.
Proof.
  induction l as [|y l IH]; cbn [sort_by foldr In]; [tauto|].
  change (foldr (insert_by cmp) [] l) with (sort_by cmp l).
  rewrite insert_by_In, IH. intuition.
Qed.

(** The head of a sorted array comes before every element, for a
    comparison that agrees with a preorder. *)
Lemma insert_by_head {A} (cmp : A -> A -> comparison) (le : A -> A -> Prop)
    (x : A) (l : list A) :
  (forall a, le a a) ->
  (forall a b c, le a b -> le b c -> le a c) ->
  (forall a b, cmp a b <> Gt -> le a b) ->
  (forall a b, cmp a b = Gt -> le b a) ->
  (forall h t, l = h :: t -> forall y, In y l -> le h y) ->
  forall h t, insert_by cmp x l = h :: t ->
  forall y, y = x \/ In y l -> le h y.
Proof.
  intros Hrefl Htrans Hle Hgt Hl h t Hi y Hy. destruct l as [|h' t'].
  - cbn in Hi. inversion Hi; subst. destruct Hy as [->|[]]. apply Hrefl.
  - cbn [insert_by] in Hi. destruct (cmp x h') eqn:Hc; inversion Hi; subst.
    + destruct Hy as [->|Hy]; [apply Hrefl|].
      apply (Htrans _ h'); [apply Hle; congruence | now apply (Hl h' t')].
    + destruct Hy as [->|Hy]; [apply Hrefl|].
      apply (Htrans _ h'); [apply Hle; congruence | now apply (Hl h' t')].
    + destruct Hy as [->|Hy]; [now apply Hgt | now apply (Hl h t')].
Qed.

Lemma sort_by_head {A} (cmp : A -> A -> comparison) (le : A -> A -> Prop)
    (l : list A) :
  (forall a, le a a) ->
  (forall a b c, le a b -> le b c -> le a c) ->
  (forall a b, cmp a b <> Gt -> le a b) ->
  (forall a b, cmp a b = Gt -> le b a) ->
  forall h t, sort_by cmp l = h :: t -> forall y, In y l -> le h y.
Proof.
  intros Hrefl Htrans Hle Hgt. induction l as [|x l IH]; intros h t Hs y Hy.
  - destruct Hy.
  - cbn [sort_by foldr] in Hs.
    change (foldr (insert_by cmp) [] l) with (sort_by cmp l) in Hs.
    apply (insert_by_head cmp le x (sort_by cmp l) Hrefl Htrans Hle Hgt) with (t := t).
    + intros h' t' Hs' z Hz. apply (IH h' t' Hs'). now apply sort_by_In in Hz.
    + exact Hs.
    + destruct Hy as [->|Hy]; [now left | right; now apply sort_by_In].
Qed.

(** The backups of [p] among the entries of the root, as [_restoreFile]
    computes them: they are the entries whose name starts with the path
    and [.bak.]; and, for a consistent collation, none of them comes
    after the first. *)
Lemma restoreFile_baks (E : Env) (w : World) (p : string) :
  let baks :=
    sort_by (fun a b => localeCompare E (fst b) (fst a))
      (filter (fun e : string * FileType => startsWith (fst e) (p ++ ".bak.") = true)
         (entries [] w)) in
  (forall e, In e baks <->
     startsWith (fst e) (p ++ ".bak.") = true /\ In e (entries [] w)) /\
  (consistent (localeCompare E) ->
   forall h t, baks = h :: t ->
     forall e, In e baks -> localeCompare E (fst e) (fst h) <> Gt).
Proof.
  intros baks. split.
  - intros e. unfold baks. rewrite sort_by_In, <- !list_elem_of_In.
    exact (list_elem_of_filter
             (fun e0 : string * FileType => startsWith (fst e0) (p ++ ".bak.") = true)
             (entries [] w) e).
  - intros [Hanti Htrans] h t Hb e He. unfold baks in Hb, He. apply sort_by_In in He.
    revert h t Hb e He.
    apply (sort_by_head (fun a b => localeCompare E (fst b) (fst a))
             (fun a b : string * FileType => localeCompare E (fst b) (fst a) <> Gt)).
    + intros a Hc. pose proof (Hanti _ _ Hc). congruence.
    + intros a b c Hab Hbc. exact (Htrans _ _ _ Hbc Hab).
    + intros a b Hc. exact Hc.
    + intros a b Hc Hc'. pose proof (Hanti _ _ Hc). congruence.
Qed.

(** No backup of [p] among the entries of the root: [NoBackupFound], and
    no file is touched. *)
Lemma restoreFile_no_backup (E : Env) (w : World) (root p : string) :
  workspaceFolders w = Some root ->
  (forall name ty, In (name, ty) (entries [] w) ->
     startsWith name (p ++ ".bak.") = false) ->
  _restoreFile E p w
  = (Err (NoBackupFound p), set_trace w (trace w ++ [ReadDirectory []])).
Proof.
  intros Hw Hnone.
  destruct (restoreFile_baks E w p) as [Hb _].
  rewrite (restoreFile_run E w root p Hw).
  destruct (sort_by _ _) as [|[latest ty] l]; [reflexivity|].
  destruct (proj1 (Hb (latest, ty)) (or_introl eq_refl)) as [Hl Hle].
  cbn [fst] in Hl. rewrite (Hnone latest ty Hle) in Hl. discriminate.
Qed.


(** A backup of [p] among the entries of the root: [_restoreFile] asks
    for the copy, over the path, of a listed backup, the last of them in
    the order of a consistent collation; the outcome is that of the
    copy. *)
Lemma restoreFile_copies_a_listed_backup
    (E : Env) (w : World) (root p name : string) (ty : FileType) :
  workspaceFolders w = Some root ->
  In (name, ty) (entries [] w) ->
  startsWith name (p ++ ".bak.") = true ->
  exists latest ty',
    In (latest, ty') (entries [] w) /\
    startsWith latest (p ++ ".bak.") = true /\
    (consistent (localeCompare E) ->
     forall name' ty'', In (name', ty'') (entries [] w) ->
       startsWith name' (p ++ ".bak.") = true -> localeCompare E name' latest <> Gt) /\
    _restoreFile E p w
    = match copy (joinPath latest) (joinPath p)
              (set_trace w (trace w ++ [ReadDirectory []])) with
      | (Ok _, w') => (Ok ("Restored " ++ dq ++ p ++ dq ++ " from backup."), w')
      | (Err e, w') => (Err e, w')
      end.
Proof.
  intros Hw Hin Hs.
  destruct (restoreFile_baks E w p) as [Hb Hmax].
  rewrite (restoreFile_run E w root p Hw).
  destruct (sort_by _ _) as [|[latest ty'] l] eqn:Hsort.
  - destruct (proj2 (Hb (name, ty)) (conj Hs Hin)).
  - destruct (proj1 (Hb (latest, ty')) (or_introl eq_refl)) as [Hl Hle].
    exists latest, ty'. split; [exact Hle|]. split; [exact Hl|]. split; [|reflexivity].
    intros Hcons name' ty'' Hin' Hs'.
    apply (Hmax Hcons (latest, ty') l eq_refl (name', ty'')). now apply Hb.
Qed.

(** What [_restoreFile] does when the listed backup is a file, the two
    paths lie apart and the target can be written. *)
Lemma restoreFile_made
    (E : Env) (w : World) (p latest v : string) :
  _restoreFile E p w
  = match copy (joinPath latest) (joinPath p)
            (set_trace w (trace w ++ [ReadDirectory []])) with
    | (Ok _, w') => (Ok ("Restored " ++ dq ++ p ++ dq ++ " from backup."), w')
    | (Err e, w') => (Err e, w')
    end ->
  files w !! joinPath latest = Some v ->
  apart (joinPath latest) (joinPath p) = true ->
  joinPath p ∉ readonly w ->
  fst (_restoreFile E p w) = Ok ("Restored " ++ dq ++ p ++ dq ++ " from backup.") /\
  files (snd (_restoreFile E p w)) = <[joinPath p := v]> (prune (joinPath p) (files w)) /\
  trace (snd (_restoreFile E p w))
  = (trace w ++ [ReadDirectory []; Copy (joinPath latest) (joinPath p)])%list.
Proof.
  intros -> Hv Ha Hro.
  rewrite (copy_made (joinPath latest) (joinPath p) _ File);
    [| now apply (kind_file _ _ v) | exact Ha | exact Hro].
  cbn [fst snd files trace set_trace]. unfold copied. rewrite Hv.
  repeat split. now rewrite <- app_assoc.
Qed.




(** On a POSIX host a backslash is an ordinary character of a file name:
    a name of the root that the ignore test rejects is restored. *)
Example restoreFile_of_an_ignored_name :
  let E := Sample.env Sample.model_done in
  let name := ".git" ++ String backslash "config" in
  let w := Sample.workspace [([name], "new"); ([name ++ ".bak.2026"], "old")] in
  isIgnored name = true /\
  fst (_restoreFile E name w) = Ok ("Restored " ++ dq ++ name ++ dq ++ " from backup.") /\
  files (snd (_restoreFile E name w)) !! [name] = Some "old".
Proof. vm_compute. repeat split. Qed.

End IgnoreList.

(* ===================================================================== *)
(** ** The agent loop *)
(* ===================================================================== *)

Section LoopFacts.
Import Js Regex Fs Gateway Spec Shape Agent.

Lemma historyOf_push (sid : string) (msg : Message) (st : State) :
  historyOf sid (push sid msg st) = (historyOf sid st ++ [msg])%list.
Proof. unfold historyOf, push. cbn [sessionHistories]. now rewrite lookup_insert_eq. Qed.

Lemma lookup_push_ne (sid sid' : string) (msg : Message) (st : State) :
  sid <> sid' ->
  sessionHistories (push sid msg st) !! sid' = sessionHistories st !! sid'.
Proof. intros H. unfold push. cbn [sessionHistories]. now rewrite lookup_insert_ne. Qed.

(** One directive: what it does to the four parts of the state. *)
Lemma run_tool_state (E : Env) (sid : string) (st : State) (m : ToolMatch) :
  let r := fst (dispatch E m (world st)) in
  let msg := match r with
             | Ok result =>
                 mkMessage "System" ("Tool Output (" ++ Regex.code m ++ "):" ++ nl ++ result)
             | Err e => mkMessage "System" ("Error (" ++ Regex.code m ++ "): " ++ message e)
             end in
  let ev := match r with
            | Ok result =>
                ToolCall (Regex.code m) (Regex.path m) "success" (Some result) sid
            | Err e =>
                ToolCall (Regex.code m) (Regex.path m) "error" (Some (message e)) sid
            end in
  world (run_tool E sid st m) = snd (dispatch E m (world st)) /\
  historyOf sid (run_tool E sid st m) = (historyOf sid st ++ [msg])%list /\
  (forall sid', sid <> sid' ->
     sessionHistories (run_tool E sid st m) !! sid' = sessionHistories st !! sid') /\
  posted (run_tool E sid st m)
  = (posted st ++ [ToolCall (Regex.code m) (Regex.path m) "running" None sid; ev])%list /\
  fetches (run_tool E sid st m) = fetches st.
Proof.
  unfold run_tool. cbn [world post].
  destruct (dispatch E m (world st)) as [[result|e] w']; cbn [fst snd];
    unfold post, push, set_world, historyOf;
    cbn [world sessionHistories posted fetches];
    (split; [reflexivity|]);
    (split; [now rewrite lookup_insert_eq|]);
    (split; [intros sid' Hne; now rewrite lookup_insert_ne|]);
    (split; [|reflexivity]); now rewrite <- app_assoc.
Qed.

(** The directives of one reply, run in order. *)
Lemma run_tools_answered (E : Env) (sid : string) (ms : list ToolMatch) (st : State) :
  exists outs evs,
    answered E sid (world st) ms outs evs (world (fold_left (run_tool E sid) ms st)) /\
    historyOf sid (fold_left (run_tool E sid) ms st) = (historyOf sid st ++ outs)%list /\
    (forall sid', sid <> sid' ->
       sessionHistories (fold_left (run_tool E sid) ms st) !! sid'
       = sessionHistories st !! sid') /\
    posted (fold_left (run_tool E sid) ms st) = (posted st ++ evs)%list /\
    fetches (fold_left (run_tool E sid) ms st) = fetches st.
Proof.
  revert st; induction ms as [|m ms IH]; intros st; cbn [fold_left].
  - exists [], []. rewrite !app_nil_r. repeat split. constructor.
  - destruct (run_tool_state E sid st m) as (Hw & Hh & Ho & Hp & Hf).
    destruct (IH (run_tool E sid st m)) as (outs & evs & Ha & Hh' & Ho' & Hp' & Hf').
    rewrite Hw in Ha.
    destruct (dispatch E m (world st)) as [[result|e] w1] eqn:Hd; cbn [fst snd] in *.
    + eexists (_ :: outs), (_ :: _ :: evs).
      split; [exact (answered_ok E sid _ _ _ m ms result outs evs Hd Ha)|].
      split; [now rewrite Hh', Hh, <- app_assoc|].
      split; [intros sid' Hne; now rewrite (Ho' sid' Hne), (Ho sid' Hne)|].
      split; [now rewrite Hp', Hp, <- app_assoc | now rewrite Hf', Hf].
    + eexists (_ :: outs), (_ :: _ :: evs).
      split; [exact (answered_err E sid _ _ _ m ms e outs evs Hd Ha)|].
      split; [now rewrite Hh', Hh, <- app_assoc|].
      split; [intros sid' Hne; now rewrite (Ho' sid' Hne), (Ho sid' Hne)|].
      split; [now rewrite Hp', Hp, <- app_assoc | now rewrite Hf', Hf].
Qed.

(** What answers a list of directives: one [System] message and two
    events of the session, none of them a status event, for each. *)
Lemma answered_shape (E : Env) (sid : string) (w w' : World)
    (ms : list ToolMatch) (outs : list Message) (evs : list Event) :
  answered E sid w ms outs evs w' ->
  List.length outs = List.length ms /\
  List.length evs = 2 * List.length ms /\
  Forall (fun msg => role msg = "System") outs /\
  Forall (turn_event sid) evs.
Proof.
  induction 1 as [w|w w1 w2 m ms result outs evs Hd Ha (L1 & L2 & F1 & F2)
                    |w w1 w2 m ms e outs evs Hd Ha (L1 & L2 & F1 & F2)].
  - repeat split; constructor.
  - cbn [List.length]. repeat split; try lia; repeat constructor; assumption.
  - cbn [List.length]. repeat split; try lia; repeat constructor; assumption.
Qed.







Lemma enter_fetches (msg sid : string) (st : State) :
  fetches (enter msg sid st) = fetches st.
Proof. unfold enter. now destruct (sessionHistories st !! sid). Qed.

Lemma enter_history (msg sid : string) (st : State) :
  sessionHistories (enter msg sid st) !! sid
  = Some (default [] (sessionHistories st !! sid) ++ [mkMessage "User" msg])%list.
Proof.
  unfold enter, post, push. cbn [sessionHistories].
  rewrite lookup_insert_eq. f_equal. f_equal.
  destruct (sessionHistories st !! sid) eqn:Hs; cbn [sessionHistories].
  - now rewrite Hs.
  - now rewrite lookup_insert_eq.
Qed.

Lemma historyOf_post (sid : string) (ev : Event) (st : State) :
  historyOf sid (post ev st) = historyOf sid st.
Proof. reflexivity. Qed.

Lemma lookup_post (sid : string) (ev : Event) (st : State) :
  sessionHistories (post ev st) !! sid = sessionHistories st !! sid.
Proof. reflexivity. Qed.

Lemma posted_post (ev : Event) (st : State) :
  posted (post ev st) = (posted st ++ [ev])%list.
Proof. reflexivity. Qed.

Lemma world_post (ev : Event) (st : State) : world (post ev st) = world st.
Proof. reflexivity. Qed.


Lemma handleMessage_state (E : Env) (msg sid : string) (st : State) :
  stateOf (_handleMessage E msg sid st)
  = post (StatusEvent false sid) (stateOf (loop E sid maxLoops 0 (enter msg sid st))).
Proof.
  unfold _handleMessage. now destruct (loop E sid maxLoops 0 _) as [[r n] st'].
Qed.


(** A model that always asks for the listing of the files: ten rounds. *)
Example loop_with_a_busy_model :
  let out := _handleMessage (Sample.env Sample.model_busy) "hi" "s"
               (Sample.fresh (Sample.workspace [])) in
  loopCountOf out = 10 /\ outcomeOf out = Ok tt /\ fetches (stateOf out) = 10.
Proof. vm_compute. repeat split. Qed.

(** The ten [Assistant] messages and the ten narratives of that turn. *)
Example loop_with_a_busy_model_consumes_ten_replies :
  let out := _handleMessage (Sample.env Sample.model_busy) "hi" "s"
               (Sample.fresh (Sample.workspace [])) in
  List.length (List.filter (fun m => String.eqb (role m) "Assistant")
                 (historyOf "s" (stateOf out))) = 10 /\
  List.length (List.filter
                 (fun ev => match ev with ReceiveMessage _ _ => true | _ => false end)
                 (posted (stateOf out))) = 10.
Proof. vm_compute. split; reflexivity. Qed.

(** A model that answers at once: one round. *)
Example loop_with_a_final_answer :
  let out := _handleMessage (Sample.env Sample.model_done) "hi" "s"
               (Sample.fresh (Sample.workspace [])) in
  loopCountOf out = 1 /\ outcomeOf out = Ok tt /\
  posted (stateOf out)
  = [StatusEvent true "s"; ReceiveMessage "done" "s"; StatusEvent false "s"].
Proof. vm_compute. repeat split. Qed.

End LoopFacts.

(* ===================================================================== *)
(** ** Directives of an unknown kind *)
(* ===================================================================== *)

Section UnknownKind.
Import Js Regex Fs Gateway Spec Agent.

Lemma dispatch_unknown (E : Env) (m : ToolMatch) (w : World) :
  ~ In (Regex.code m) known_kinds ->
  dispatch E m w = (Ok "", w).
Proof.
  intros Hk. unfold dispatch.
  repeat match goal with
  | |- context [String.eqb (Regex.code m) ?k] =>
      let H := fresh in
      destruct (String.eqb_spec (Regex.code m) k) as [H|H];
      [exfalso; apply Hk; rewrite H; cbn; tauto|]
  end.
  reflexivity.
Qed.

(** C9 (as amended).  A directive whose kind is none of the known kinds
    is not dispatched to any gateway method and does not produce an
    error: the world is left as it was.  It is however recorded as a
    tool call that succeeded with an empty output (a [running] and a
    [success] event, and a [System] message [Tool Output (<kind>):] in
    the history), and it counts as a tool call: after a reply made of
    such a directive the loop goes on to its next iteration. *)
Theorem unknown_kind_is_recorded_as_success
    (E : Env) (sid : string) (st : State) (m : ToolMatch) :
  ~ In (Regex.code m) known_kinds ->
  dispatch E m (world st) = (Ok "", world st) /\
  world (run_tool E sid st m) = world st /\
  run_tool E sid st m
  = post (ToolCall (Regex.code m) (Regex.path m) "success" (Some "") sid)
      (push sid (mkMessage "System" ("Tool Output (" ++ Regex.code m ++ "):" ++ nl ++ ""))
         (post (ToolCall (Regex.code m) (Regex.path m) "running" None sid) st)) /\
  (forall remaining n,
     let reply := model E (fetches st)
                    (fullMessage E (default [] (sessionHistories st !! sid))) in
     ok reply = true -> tool_matches (text reply) = [m] ->
     exists st', loop E sid (S remaining) n st = loop E sid remaining (S n) st'
                 /\ world st' = world st).
Proof.
  intros Hk.
  assert (forall s, run_tool E sid s m
          = post (ToolCall (Regex.code m) (Regex.path m) "success" (Some "") sid)
              (push sid (mkMessage "System" ("Tool Output (" ++ Regex.code m ++ "):" ++ nl ++ ""))
                 (post (ToolCall (Regex.code m) (Regex.path m) "running" None sid) s)))
    as Hrun.
  { intros s. unfold run_tool. cbn [world post].
    rewrite (dispatch_unknown E m (world s) Hk). now destruct s. }
  split; [now apply dispatch_unknown|]. split; [now rewrite Hrun|].
  split; [apply Hrun|].
  intros remaining n reply Hok Hm. cbn [loop]. fold reply. rewrite Hok, Hm.
  cbn [negb fold_left]. eexists. split; [reflexivity|]. now rewrite Hrun.
Qed.

(** A directive of the kind [frobnicate] in a used workspace. *)
Lemma unknown_kind_is_recorded_as_success_witness :
  let E := Sample.env Sample.model_unknown in
  let st := Sample.fresh (Sample.workspace [(["a.ts"], "v1")]) in
  let m := mkToolMatch "frobnicate" None "x" in
  dispatch E m (world st) = (Ok "", world st) /\
  world (run_tool E "s" st m) = world st /\
  sessionHistories (run_tool E "s" st m) !! "s"
  = Some [mkMessage "System" ("Tool Output (frobnicate):" ++ nl)].
Proof.
  intros E st m.
  assert (~ In (Regex.code m) known_kinds) as Hk.
  { cbn. intros H. repeat (destruct H as [H|H]; [discriminate H|]). exact H. }
  destruct (unknown_kind_is_recorded_as_success E "s" st m Hk)
    as (Hd & Hw & Hr & _).
  split; [exact Hd|]. split; [exact Hw|]. rewrite Hr. reflexivity.
Defined.

(** C9, the counterexample.  The first reply of the model is one
    directive of the unknown kind [frobnicate]: the turn does not end
    there as it does after a reply without directive.  The directive is
    answered in the history and the model is called a second time. *)
Lemma unknown_kind_is_not_a_noop_for_the_turn :
  let st := Sample.fresh (Sample.workspace []) in
  let out := _handleMessage (Sample.env Sample.model_unknown) "hi" "s" st in
  let plain_out := _handleMessage (Sample.env Sample.model_done) "hi" "s" st in
  tool_matches (text (Sample.model_unknown 0 ""))
  = [mkToolMatch "frobnicate" None "x"] /\
  ~ In "frobnicate" known_kinds /\
  loopCountOf plain_out = 1 /\
  loopCountOf out = 2 /\
  fetches (stateOf out) = 2 /\
  sessionHistories (stateOf out) !! "s"
  = Some [ mkMessage "User" "hi";
           mkMessage "Assistant" ("<tool code=" ++ dq ++ "frobnicate" ++ dq ++ ">x</tool>");
           mkMessage "System" ("Tool Output (frobnicate):" ++ nl);
           mkMessage "Assistant" "done" ] /\
  In (ToolCall "frobnicate" None "success" (Some "") "s") (posted (stateOf out)).
Proof.
  repeat split.
  - cbn. intros H. repeat (destruct H as [H|H]; [discriminate H|]). exact H.
  - vm_compute. tauto.
Qed.

End UnknownKind.

(* ===================================================================== *)
(** ** The parser on arbitrary replies *)
(* ===================================================================== *)

Section ParserSoundness.
Import Js Regex Spec Shape.

Lemma includes_cons_ne (x : ascii) (v : string) :
  Ascii.eqb x dquote = false -> includes v dq = false ->
  includes (String x v) dq = false.
Proof.
  intros Hx Hv. apply includes_false_iff. intros a b H.
  destruct a as [|y a]; cbn in H; inversion H; subst.
  - now rewrite Ascii.eqb_refl in Hx.
  - apply (proj1 (includes_false_iff _ _) Hv a b). reflexivity.
Qed.

Lemma span_not_quote_sound (s v r : string) :
  span_not_quote s = (v, r) ->
  s = v ++ r /\ includes v dq = false /\
  (r = "" \/ exists r', r = String dquote r').
Proof.
  revert v r; induction s as [|x s IH]; intros v r H; cbn [span_not_quote] in H.
  - inversion H; subst. repeat split. now left.
  - destruct (Ascii.eqb_spec x dquote) as [->|Hx].
    + inversion H; subst. repeat split. right; eauto.
    + destruct (span_not_quote s) as [v' r'] eqn:Hs. inversion H; subst.
      destruct (IH _ _ eq_refl) as (-> & Hv & Hr). repeat split; [|exact Hr].
      apply includes_cons_ne; [|exact Hv]. now apply Ascii.eqb_neq.
Qed.

(** An attribute value that was read is non-empty, free of double quotes
    and followed by the closing quote. *)
Lemma quoted_sound (s v r : string) :
  quoted s = Some (v, r) ->
  s = v ++ dq ++ r /\ v <> "" /\ includes v dq = false.
Proof.
  unfold quoted. destruct (span_not_quote s) as [v' r'] eqn:Hs.
  apply span_not_quote_sound in Hs as (-> & Hv & Hr).
  destruct v' as [|c v']; [discriminate|]. destruct r' as [|d r']; [discriminate|].
  intros [= <- <-]. destruct Hr as [Hr|[r'' Hr]]; [discriminate|].
  inversion Hr; subst. repeat split; [discriminate | exact Hv].
Qed.

Lemma tool_body_sound (s b rest : string) :
  tool_body s = Some (b, rest) ->
  s = ">" ++ b ++ "</tool>" ++ rest /\ includes b "</tool>" = false.
Proof.
  unfold tool_body. destruct (strip_prefix ">" s) as [r|] eqn:Hs; [|discriminate].
  apply strip_prefix_Some in Hs as ->. intros Hf. split.
  - now rewrite (find_sound _ _ _ _ Hf).
  - apply (find_before_free "</tool>" r b rest); [discriminate | exact Hf].
Qed.

(** A match of the directive pattern covers a well-formed block. *)
Lemma tool_at_sound (s : string) (m : ToolMatch) (rest : string) :
  tool_at s = Some (m, rest) -> s = full_text m ++ rest /\ well_formed m.
Proof.
  unfold tool_at.
  destruct (strip_prefix _ s) as [r1|] eqn:H1; [|discriminate].
  apply strip_prefix_Some in H1 as ->.
  destruct (quoted r1) as [[c r2]|] eqn:Hq; [|discriminate].
  apply quoted_sound in Hq as (-> & Hc & Hcq).
  assert (forall b r, tool_body r2 = Some (b, r) ->
            ("<tool code=" ++ dq) ++ c ++ dq ++ r2
            = full_text (mkToolMatch c None b) ++ r
            /\ well_formed (mkToolMatch c None b)) as Hnone.
  { intros b r Hb. apply tool_body_sound in Hb as (-> & Hb).
    unfold full_text, well_formed; cbn [code path content].
    split; [now rewrite !sapp_assoc | repeat split; assumption]. }
  unfold tool_attrs.
  destruct (strip_prefix _ r2) as [r3|] eqn:H3.
  - destruct (quoted r3) as [[q r4]|] eqn:Hq3.
    + destruct (tool_body r4) as [[b r]|] eqn:Hb4.
      * intros [= <- <-]. apply strip_prefix_Some in H3 as ->.
        apply quoted_sound in Hq3 as (-> & Hp & Hpq).
        apply tool_body_sound in Hb4 as (-> & Hb).
        unfold full_text, well_formed; cbn [code path content].
        split; [now rewrite !sapp_assoc | repeat split; assumption].
      * destruct (tool_body r2) as [[b r]|] eqn:Hb2; [|discriminate].
        intros [= <- <-]. now apply Hnone.
    + destruct (tool_body r2) as [[b r]|] eqn:Hb2; [|discriminate].
      intros [= <- <-]. now apply Hnone.
  - destruct (tool_body r2) as [[b r]|] eqn:Hb2; [|discriminate].
    intros [= <- <-]. now apply Hnone.
Qed.

Lemma exec_all_decomposes (fuel : nat) (s : string) :
  reply (fst (exec_all fuel s)) (snd (exec_all fuel s)) = s /\
  Forall (fun gm => well_formed (snd gm)) (fst (exec_all fuel s)).
Proof.
  revert s; induction fuel as [|fuel IH]; intros s; cbn [exec_all].
  - split; [reflexivity | constructor].
  - destruct (exec tool_at s) as [[[pre m] rest]|] eqn:He;
      [|split; [reflexivity | constructor]].
    apply exec_sound in He as (t & -> & Ht).
    apply tool_at_sound in Ht as (-> & Hm).
    destruct (IH rest) as [Hr Hf].
    destruct (exec_all fuel rest) as [ms tail]. cbn [fst snd reply] in *.
    split; [now rewrite Hr | now constructor].
Qed.

Lemma exec_all_exhausts (fuel : nat) (s : string) :
  String.length s <= fuel ->
  exec tool_at (snd (exec_all fuel s)) = None.
Proof.
  revert s; induction fuel as [|fuel IH]; intros s Hl; cbn [exec_all].
  - destruct s; [reflexivity | cbn in Hl; lia].
  - destruct (exec tool_at s) as [[[pre m] rest]|] eqn:He; [|exact He].
    pose proof He as He'. apply exec_sound in He' as (t & -> & Ht).
    apply tool_at_sound in Ht as (-> & _).
    rewrite !slength_app in Hl. pose proof (full_text_length m).
    specialize (IH rest ltac:(lia)).
    destruct (exec_all fuel rest) as [ms tail]. exact IH.
Qed.

(** X1.  Whatever the reply, parsing loses nothing and invents nothing:
    the matches, each put back after the text that precedes it, followed
    by the text after the last match, spell the reply; every match is a
    well-formed block; the text after the last match holds no further
    match; and the text with the blocks removed is the text outside
    them. *)
Theorem parse_decomposes_the_reply (answer : string) :
  let parsed := exec_all (String.length answer) answer in
  reply (fst parsed) (snd parsed) = answer /\
  tool_matches answer = map snd (fst parsed) /\
  Forall well_formed (tool_matches answer) /\
  exec tool_at (snd parsed) = None /\
  strip_tools answer = outside (fst parsed) (snd parsed).
Proof.
  intros parsed. subst parsed.
  destruct (exec_all_decomposes (String.length answer) answer) as [Hr Hf].
  split; [exact Hr|]. split; [reflexivity|]. split.
  - unfold tool_matches. apply List.Forall_forall. intros m Hin.
    apply in_map_iff in Hin as (gm & <- & Hin).
    now apply (proj1 (List.Forall_forall _ _) Hf gm).
  - split; [now apply exec_all_exhausts|].
    unfold strip_tools, outside.
    now destruct (exec_all (String.length answer) answer).
Qed.

Lemma exec_all_none (fuel : nat) (s : string) :
  exec tool_at s = None -> exec_all fuel s = ([], s).
Proof. intros H. destruct fuel; cbn [exec_all]; [|rewrite H]; reflexivity. Qed.

(** X2.  A reply that never closes a directive (it holds no end marker)
    yields no directive at all: the text of the unfinished directive
    stays in the narrative. *)
Theorem unterminated_directive_is_text (answer : string) :
  includes answer "</tool>" = false ->
  tool_matches answer = [] /\ Agent.narrative answer = trim answer.
Proof.
  intros Hn.
  assert (exec tool_at answer = None) as He.
  { apply exec_none. intros a b ->.
    destruct (tool_at b) as [[m rest]|] eqn:Hb; [|reflexivity].
    apply tool_at_sound in Hb as (-> & _).
    assert (includes (a ++ full_text m ++ rest) "</tool>" = true) as Hi.
    { apply includes_suffix_true, includes_true_iff.
      exists ("<tool code=" ++ dq ++ code m ++ dq
              ++ match path m with
                 | Some p => " path=" ++ dq ++ p ++ dq
                 | None => ""
                 end ++ ">" ++ content m), rest.
      unfold full_text. now rewrite !sapp_assoc. }
    congruence. }
  unfold tool_matches, Agent.narrative, strip_tools.
  rewrite (exec_all_none _ _ He). split; reflexivity.
Qed.

(** A write directive cut before its end marker. *)
Lemma unterminated_directive_is_text_witness :
  let answer := "Here: <tool code=" ++ dq ++ "write_file" ++ dq ++ " path="
                ++ dq ++ "a.ts" ++ dq ++ ">const x = 1;" in
  tool_matches answer = [] /\ Agent.narrative answer = trim answer.
Proof.
  apply (unterminated_directive_is_text
           ("Here: <tool code=" ++ dq ++ "write_file" ++ dq ++ " path="
            ++ dq ++ "a.ts" ++ dq ++ ">const x = 1;")).
  reflexivity.
Defined.

(** A match at some position of the text: [exec] finds a match. *)
Lemma exec_complete {A} (at_start : string -> option (A * string)) (a t : string) :
  is_Some (at_start t) -> is_Some (exec at_start (a ++ t)).
Proof.
  intros Ht. induction a as [|c a IH].
  - change ("" ++ t) with t. rewrite exec_eq.
    destruct Ht as [[m r] ->]. eauto.
  - change (String c a ++ t) with (String c (a ++ t)). rewrite exec_eq.
    destruct (at_start (String c (a ++ t))) as [[m r]|]; [eauto|].
    destruct IH as [[[pre m] r] ->]. eauto.
Qed.

(** X3.  The pattern of [_replaceLines] finds a region exactly when the
    body holds one: a body is rejected as malformed if and only if it
    lacks an opening tag followed, later, by its closing tag. *)
Theorem region_found_iff_present (tag body : string) :
  match_region tag body = None <-> ~ has_region tag body.
Proof.
  split.
  - intros Hn (a & m & b & ->). unfold match_region in Hn.
    assert (is_Some (exec (region_at tag)
                       (a ++ ("<" ++ tag ++ ">") ++ m ++ ("</" ++ tag ++ ">") ++ b)))
      as [[[pre r] rest] He].
    { apply exec_complete. unfold region_at. rewrite strip_prefix_app.
      destruct (find_complete ("</" ++ tag ++ ">") m b) as (b' & a' & ->). eauto. }
    rewrite He in Hn. discriminate.
  - intros Hn. destruct (match_region tag body) as [r|] eqn:Hm; [|reflexivity].
    destruct Hn. now apply (match_region_sound tag body r).
Qed.

(** A region that follows text without opening tag, and whose content
    holds no closing tag, is the region found, with its content. *)
Lemma match_region_exact (tag gap content rest : string) :
  has_char "<" tag = false ->
  includes gap ("<" ++ tag ++ ">") = false ->
  includes content ("</" ++ tag ++ ">") = false ->
  match_region tag (gap ++ ("<" ++ tag ++ ">") ++ content ++ ("</" ++ tag ++ ">") ++ rest)
  = Some content.
Proof.
  intros Ht Hg Hc.
  assert (has_char "<" (tag ++ ">") = false) as Ho
    by (rewrite has_char_app, Ht; reflexivity).
  assert (has_char "<" ("/" ++ tag ++ ">") = false) as Hcl
    by (change ("/" ++ tag ++ ">") with (String "/" (tag ++ ">"));
        cbn [has_char]; rewrite Ho; reflexivity).
  unfold match_region. rewrite exec_skip.
  - rewrite exec_eq. unfold region_at at 1. rewrite strip_prefix_app.
    change ("</" ++ tag ++ ">") with (String "<" ("/" ++ tag ++ ">")).
    rewrite (find_exact "<" ("/" ++ tag ++ ">") content rest Hcl Hc). reflexivity.
  - intros a b -> Hb. unfold region_at.
    destruct (strip_prefix ("<" ++ tag ++ ">") _) as [r|] eqn:Hs; [|reflexivity].
    assert (is_Some (strip_prefix (String "<" (tag ++ ">")) b)) as Hp.
    { apply (strip_prefix_border "<" (tag ++ ">") b
               (content ++ ("</" ++ tag ++ ">") ++ rest) Ho Hb).
      change (String "<" (tag ++ ">")) with ("<" ++ tag ++ ">"). rewrite Hs. eauto. }
    apply strip_prefix_includes, (includes_suffix_true a) in Hp.
    change (String "<" (tag ++ ">")) with ("<" ++ tag ++ ">") in Hp. congruence.
Qed.

Lemma match_regions_of_body (pre search mid replacement post : string) :
  includes pre "<search>" = false ->
  includes search "</search>" = false ->
  includes (pre ++ "<search>" ++ search ++ "</search>" ++ mid) "<replace>" = false ->
  includes replacement "</replace>" = false ->
  match_region "search" (replace_body pre search mid replacement post) = Some search /\
  match_region "replace" (replace_body pre search mid replacement post) = Some replacement.
Proof.
  intros Hpre Hs Hgap Hr. unfold replace_body. split.
  - apply (match_region_exact "search" pre search
             (mid ++ "<replace>" ++ replacement ++ "</replace>" ++ post)
             eq_refl Hpre Hs).
  - pose proof (match_region_exact "replace"
                  (pre ++ "<search>" ++ search ++ "</search>" ++ mid)
                  replacement post eq_refl Hgap Hr) as H.
    rewrite !sapp_assoc in H. exact H.
Qed.

(** X4.  The body of a [replace_lines] directive is read back as it was
    written: when no search tag opens before the search region, no
    replace tag opens before the replace region, and neither text holds
    its own closing tag, the two patterns return the search text and the
    replacement text. *)
Theorem replace_body_round_trip (pre search mid replacement post : string) :
  includes pre "<search>" = false ->
  includes search "</search>" = false ->
  includes (pre ++ "<search>" ++ search ++ "</search>" ++ mid) "<replace>" = false ->
  includes replacement "</replace>" = false ->
  match_region "search" (replace_body pre search mid replacement post) = Some search /\
  match_region "replace" (replace_body pre search mid replacement post) = Some replacement.
Proof. apply match_regions_of_body. Qed.

(** The body shown in the instruction text, with line breaks around the
    two regions. *)
Lemma replace_body_round_trip_witness :
  let body := replace_body Fs.nl "let x = 1;" Fs.nl "let x = 2;" Fs.nl in
  match_region "search" body = Some "let x = 1;" /\
  match_region "replace" body = Some "let x = 2;".
Proof.
  apply (replace_body_round_trip Fs.nl "let x = 1;" Fs.nl "let x = 2;" Fs.nl);
    reflexivity.
Defined.

(** The replacement region is looked for from the start of the body: a
    search text that holds a replace tag hides the real region. *)
Example replace_tag_inside_search :
  match_region "replace"
    (replace_body "" "a<replace>b" "" "c" "")
  = Some "b</search><replace>c".
Proof. reflexivity. Qed.

End ParserSoundness.

(* ===================================================================== *)
(** ** What the tools do to the files *)
(* ===================================================================== *)

Section FileEffects.
Import Js Regex Fs Gateway Spec Shape.

Lemma confined_refl (ks : list (list string)) (w w' : World) :
  files w' = files w -> confined ks w w'.
Proof. intros H k _. now rewrite H. Qed.

Lemma confined_trans (ks : list (list string)) (w1 w2 w3 : World) :
  confined ks w1 w2 -> confined ks w2 w3 -> confined ks w1 w3.
Proof. intros H1 H2 k Hk. now rewrite (H2 k Hk), (H1 k Hk). Qed.

Lemma confined_insert (ks : list (list string)) (w w' : World) k v :
  In k ks -> files w' = <[k := v]> (files w) -> confined ks w w'.
Proof.
  intros Hk H k' Hk'. rewrite H. apply lookup_insert_ne.
  intros ->. specialize (Hk' k' Hk). now rewrite under_refl in Hk'.
Qed.

Lemma confined_copied (ks : list (list string)) (w w' : World) s t :
  In t ks -> files w' = copied s t (files w) -> confined ks w w'.
Proof. intros Ht H k Hk. rewrite H. apply copied_outside. now apply Hk. Qed.

Lemma confined_weaken (ks ks' : list (list string)) (w w' : World) :
  (forall k, In k ks -> In k ks') -> confined ks w w' -> confined ks' w w'.
Proof. intros Hs H k Hk. apply H. intros d Hd. apply Hk. auto. Qed.

Lemma createBackup_confined (E : Env) (p : string) (f : list string) (w : World) ks :
  In (backupUri E w p) ks ->
  confined ks w (snd (_createBackup E p f w)).
Proof.
  intros Hk. destruct (createBackup_world E p f w) as (_ & _ & _ & [H|H]).
  - now apply confined_refl.
  - now apply (confined_copied ks w _ f (backupUri E w p)).
Qed.

Lemma writeFile_confined (E : Env) (p c : string) (w : World) :
  confined [joinPath p; backupUri E w p] w (snd (_writeFile E p c w)).
Proof.
  unfold _writeFile, bind, requireWorkspace, throw.
  destruct (workspaceFolders w); [|now apply confined_refl].
  destruct (isIgnored p); [now apply confined_refl|].
  pose proof (createBackup_confined E p (joinPath p) w
                [joinPath p; backupUri E w p] ltac:(cbn; tauto)) as Hb.
  destruct (createBackup_world E p (joinPath p) w) as (Hok & _).
  destruct (_createBackup E p (joinPath p) w) as [r w1].
  cbn [fst] in Hok. subst r.
  cbn [snd] in Hb. unfold writeFile, bind, record, swallow, ret.
  cbn [fst snd]. unfold set_trace, set_files. cbn [files readonly trace].
  destruct (bool_decide _); cbn [snd files].
  - exact Hb.
  - apply (confined_trans _ w w1); [exact Hb|].
    apply (confined_insert _ w1 _ (joinPath p) c); [cbn; tauto | reflexivity].
Qed.

Lemma readFile_keeps_files (p : string) (w : World) :
  files (snd (_readFile p w)) = files w /\ ticks (snd (_readFile p w)) = ticks w.
Proof.
  unfold _readFile; gw_unfold.
  destruct (workspaceFolders w); [|split; reflexivity].
  destruct (isIgnored p); [split; reflexivity|]. cbn [files set_trace].
  destruct (files w !! joinPath p); split; reflexivity.
Qed.

Lemma listFiles_keeps_files (w : World) :
  files (snd (_listFiles w)) = files w /\ ticks (snd (_listFiles w)) = ticks w.
Proof.
  unfold _listFiles; gw_unfold.
  destruct (workspaceFolders w); split; reflexivity.
Qed.

Lemma replaceLines_confined (E : Env) (p body : string) (w : World) :
  confined [joinPath p; backupUri E w p] w (snd (_replaceLines E p body w)).
Proof.
  unfold _replaceLines; gw_unfold.
  destruct (workspaceFolders w); [|now apply confined_refl].
  destruct (match_region "search" body); [|now apply confined_refl].
  destruct (match_region "replace" body); [|now apply confined_refl].
  set (w0 := set_trace w (trace w ++ [ReadFile (joinPath p)])).
  change (files w0) with (files w).
  destruct (files w !! joinPath p) as [original|]; [|now apply confined_refl].
  destruct (includes original _); cbn [negb]; [|now apply confined_refl].
  pose proof (createBackup_confined E p (joinPath p) w0
                [joinPath p; backupUri E w p] ltac:(cbn; tauto)) as Hb.
  destruct (createBackup_world E p (joinPath p) w0) as (Hok & _).
  destruct (_createBackup E p (joinPath p) w0) as [r w1].
  cbn [fst] in Hok. subst r. cbn [snd] in Hb.
  assert (confined [joinPath p; backupUri E w p] w w1) as Hb' by exact Hb.
  unfold set_trace, set_files. cbn [files readonly trace].
  destruct (bool_decide _); cbn [snd files].
  - exact Hb'.
  - apply (confined_trans _ w w1); [exact Hb'|].
    eapply (confined_insert _ w1 _ (joinPath p)); [cbn; tauto | reflexivity].
Qed.

Lemma restoreFile_confined (E : Env) (p : string) (w : World) :
  confined [joinPath p] w (snd (_restoreFile E p w)).
Proof.
  destruct (workspaceFolders w) as [root|] eqn:Hw.
  2:{ unfold _restoreFile, bind, requireWorkspace. rewrite Hw. now apply confined_refl. }
  rewrite (restoreFile_run E w root p Hw).
  destruct (sort_by _ _) as [|[latest ty] l]; [now apply confined_refl|].
  destruct (copy_world (joinPath latest) (joinPath p)
              (set_trace w (trace w ++ [ReadDirectory []]))) as (_ & _ & _ & _ & H).
  assert (confined [joinPath p] w
            (snd (copy (joinPath latest) (joinPath p)
                    (set_trace w (trace w ++ [ReadDirectory []]))))) as Hc.
  { cbn [files set_trace] in H. destruct H as [H|[[H _]|[H _]]].
    - now apply confined_refl.
    - apply (confined_copied _ w _ (joinPath latest) (joinPath p)); [cbn; tauto|exact H].
    - intros k Hk. rewrite H, prune_lookup, (Hk (joinPath p)); [reflexivity|cbn; tauto]. }
  now destruct (copy (joinPath latest) (joinPath p) _) as [[u|e] w'].
Qed.

Lemma dispatch_confined (E : Env) (m : ToolMatch) (w : World) :
  Regex.code m <> "run_command" ->
  confined [joinPath (default "" (Regex.path m));
            backupUri E w (default "" (Regex.path m))]
    w (snd (Agent.dispatch E m w)).
Proof.
  intros Hc. unfold Agent.dispatch.
  destruct (String.eqb _ "replace_lines"); [apply replaceLines_confined|].
  destruct (String.eqb _ "write_file"); [apply writeFile_confined|].
  destruct (String.eqb _ "read_file");
    [apply confined_refl, readFile_keeps_files|].
  destruct (String.eqb _ "list_files");
    [apply confined_refl, listFiles_keeps_files|].
  destruct (String.eqb_spec (Regex.code m) "run_command"); [contradiction|].
  destruct (String.eqb _ "restore_file").
  - apply (confined_weaken [joinPath (default "" (Regex.path m))]);
      [cbn; tauto | apply restoreFile_confined].
  - now apply confined_refl.
Qed.

(** The tools that only look: every kind but the three that write and
    the shell leaves the files as they were. *)
Lemma dispatch_reads (E : Env) (m : ToolMatch) (w : World) :
  ~ In (Regex.code m) ["write_file"; "replace_lines"; "restore_file"; "run_command"] ->
  files (snd (Agent.dispatch E m w)) = files w.
Proof.
  intros Hc. unfold Agent.dispatch.
  destruct (String.eqb_spec (Regex.code m) "replace_lines") as [H|_];
    [exfalso; apply Hc; rewrite H; cbn; tauto|].
  destruct (String.eqb_spec (Regex.code m) "write_file") as [H|_];
    [exfalso; apply Hc; rewrite H; cbn; tauto|].
  destruct (String.eqb _ "read_file"); [apply readFile_keeps_files|].
  destruct (String.eqb _ "list_files"); [apply listFiles_keeps_files|].
  destruct (String.eqb_spec (Regex.code m) "run_command") as [H|_];
    [exfalso; apply Hc; rewrite H; cbn; tauto|].
  destruct (String.eqb_spec (Regex.code m) "restore_file") as [H|_];
    [exfalso; apply Hc; rewrite H; cbn; tauto|].
  reflexivity.
Qed.

(** X5.  Whatever the directive, short of a shell command, the tool it
    runs changes, creates or removes no file outside two places: the path
    of the directive and the name of its backup for the current reading
    of the clock, with what lies below them.  Every other file keeps its
    content, whether the tool succeeds or fails; and a directive that is
    none of [write_file], [replace_lines] and [restore_file] changes no
    file at all. *)
Theorem file_tools_touch_only_target_and_backup
    (E : Env) (m : ToolMatch) (w : World) :
  Regex.code m <> "run_command" ->
  let p := default "" (Regex.path m) in
  let w' := snd (Agent.dispatch E m w) in
  confined [joinPath p; backupUri E w p] w w' /\
  (~ In (Regex.code m) ["write_file"; "replace_lines"; "restore_file"] ->
   files w' = files w).
Proof.
  intros Hc p w'. split; [now apply dispatch_confined|].
  intros Hk. apply dispatch_reads. cbn [In] in *. intuition congruence.
Qed.

(** A write over [a.ts] next to two other files: they keep their content. *)
Lemma file_tools_touch_only_target_and_backup_witness :
  let E := Sample.env Sample.model_done in
  let w := Sample.workspace [(["a.ts"], "v1"); (["b.ts"], "b"); (["src"; "c.ts"], "c")] in
  let w' := snd (Agent.dispatch E (mkToolMatch "write_file" (Some "a.ts") "v2") w) in
  files w' !! ["b.ts"] = Some "b" /\ files w' !! ["src"; "c.ts"] = Some "c".
Proof.
  intros E w w'.
  destruct (file_tools_touch_only_target_and_backup E
              (mkToolMatch "write_file" (Some "a.ts") "v2") w ltac:(discriminate))
    as [Hframe _].
  unfold w'. split.
  - rewrite (Hframe ["b.ts"]); [reflexivity|].
    cbn. intros d [<-|[<-|[]]]; reflexivity.
  - rewrite (Hframe ["src"; "c.ts"]); [reflexivity|].
    cbn. intros d [<-|[<-|[]]]; reflexivity.
Defined.

(** What lies below the path of a [restore_file] directive does not
    survive it: a backup copied over a folder takes the place of the
    folder and of the files in it. *)
Example restore_over_a_folder_removes_its_files :
  let E := Sample.env Sample.model_done in
  let w := Sample.workspace [(["src"; "a.ts"], "x"); (["src.bak.1"], "old")] in
  let w' := snd (Agent.dispatch E (mkToolMatch "restore_file" (Some "src") "") w) in
  fst (Agent.dispatch E (mkToolMatch "restore_file" (Some "src") "") w)
  = Ok ("Restored " ++ dq ++ "src" ++ dq ++ " from backup.") /\
  files w' !! ["src"] = Some "old" /\
  files w' !! ["src"; "a.ts"] = None.
Proof. vm_compute. repeat split. Qed.

(** X6.  Without an open workspace folder each of the six tools fails
    with [No workspace] before anything else: no file is touched, the
    clock is not read, the trace of I/O calls does not grow. *)
Theorem no_workspace_no_tool (E : Env) (m : ToolMatch) (w : World) :
  workspaceFolders w = None ->
  In (Regex.code m) known_kinds ->
  Agent.dispatch E m w = (Err NoWorkspace, w).
Proof.
  intros Hw Hk. unfold Agent.dispatch.
  cbn [known_kinds In] in Hk.
  destruct Hk as [<-|[<-|[<-|[<-|[<-|[<-|[]]]]]]];
    cbn [String.eqb Ascii.eqb Bool.eqb];
    unfold _readFile, _writeFile, _replaceLines, _listFiles, _runCommand,
      _restoreFile, bind, requireWorkspace;
    now rewrite Hw.
Qed.

Lemma no_workspace_no_tool_witness :
  let E := Sample.env Sample.model_done in
  let w := mkWorld None {[ ["a.ts"] := "v1" ]} ∅ 0 [] in
  Agent.dispatch E (mkToolMatch "run_command" None "rm -rf .") w
  = (Err NoWorkspace, w).
Proof.
  apply (no_workspace_no_tool (Sample.env Sample.model_done)
           (mkToolMatch "run_command" None "rm -rf .")
           (mkWorld None {[ ["a.ts"] := "v1" ]} ∅ 0 [])).
  - reflexivity.
  - cbn. tauto.
Defined.

(** X7.  Reading back what was just written gives the text written:
    [writeFile] followed by [readFile] on the same path, when the path
    passes the checks and can be written, returns the content. *)
Theorem write_then_read (E : Env) (w : World) (root p c : string) :
  workspaceFolders w = Some root ->
  isIgnored p = false ->
  joinPath p ∉ readonly w ->
  fst ((_writeFile E p c ;; _readFile p)%gw w) = Ok c.
Proof.
  intros Hw Hi Hro. unfold bind at 1.
  rewrite (writeFile_allowed E w root p c Hw Hi Hro).
  destruct (createBackup_world E p (joinPath p) w) as (_ & Hws & _ & _).
  unfold _readFile; gw_unfold. cbn [workspaceFolders]. rewrite Hws, Hw, Hi.
  cbn [fst snd files set_trace]. now rewrite lookup_insert_eq.
Qed.

Lemma write_then_read_witness :
  fst ((_writeFile (Sample.env Sample.model_done) "src/a.ts" "let x = 1;" ;;
        _readFile "src/a.ts")%gw (Sample.workspace [(["src"; "a.ts"], "old")]))
  = Ok "let x = 1;".
Proof.
  apply (write_then_read (Sample.env Sample.model_done)
           (Sample.workspace [(["src"; "a.ts"], "old")]) "/ws" "src/a.ts" "let x = 1;").
  - reflexivity.
  - reflexivity.
  - apply not_elem_of_empty.
Defined.

(** X8.  [replaceLines] never creates a file: on a path where no file
    exists it fails, whatever the body, and leaves the files and the
    clock as they were (no backup is attempted). *)
Theorem replaceLines_needs_the_file (E : Env) (p body : string) (w : World) :
  files w !! joinPath p = None ->
  (exists e, fst (_replaceLines E p body w) = Err e) /\
  files (snd (_replaceLines E p body w)) = files w /\
  ticks (snd (_replaceLines E p body w)) = ticks w.
Proof.
  intros Hf. unfold _replaceLines; gw_unfold.
  destruct (workspaceFolders w); [|repeat split; eauto].
  destruct (match_region "search" body); [|repeat split; eauto].
  destruct (match_region "replace" body); [|repeat split; eauto].
  cbn [files set_trace]. rewrite Hf. repeat split; eauto.
Qed.

Lemma replaceLines_needs_the_file_witness :
  let E := Sample.env Sample.model_done in
  let w := Sample.workspace [(["b.ts"], "b")] in
  let body := "<search>a</search><replace>b</replace>" in
  (exists e, fst (_replaceLines E "a.ts" body w) = Err e) /\
  files (snd (_replaceLines E "a.ts" body w)) = files w /\
  ticks (snd (_replaceLines E "a.ts" body w)) = ticks w.
Proof.
  apply (replaceLines_needs_the_file (Sample.env Sample.model_done) "a.ts"
           "<search>a</search><replace>b</replace>"
           (Sample.workspace [(["b.ts"], "b")])).
  reflexivity.
Defined.

End FileEffects.

(* ===================================================================== *)
(** ** Paths, and undoing a write *)
(* ===================================================================== *)

Section PathsAndUndo.
Import Js Regex Fs Gateway Spec Shape.

Lemma split_on_no_sep (sep : ascii) (s : string) :
  has_char sep s = false -> split_on sep s = [s].
Proof.
  induction s as [|x s IH]; intros H; [reflexivity|].
  cbn [has_char] in H. apply orb_false_iff in H as [Hx Hs].
  cbn [split_on]. rewrite Ascii.eqb_sym, Hx, (IH Hs). reflexivity.
Qed.

(** A name that is one segment is its own normal form. *)
Lemma joinPath_segment (name : string) : segment name -> joinPath name = [name].
Proof.
  intros (Hs & H0 & H1 & H2). unfold joinPath.
  rewrite (split_on_no_sep "/" name Hs). cbn [fold_left]. unfold push_segment.
  apply String.eqb_neq in H0, H1, H2. rewrite H0, H1, H2. reflexivity.
Qed.

Lemma joinPath_parent (name : string) :
  segment name -> joinPath ("../" ++ name) = [".."; name].
Proof.
  intros (Hs & H0 & H1 & H2). unfold joinPath.
  change ("../" ++ name) with (String "." (String "." (String "/" name))).
  cbn [split_on Ascii.eqb Bool.eqb]. rewrite (split_on_no_sep "/" name Hs).
  cbn [fold_left]. unfold push_segment at 2. cbn [String.eqb Ascii.eqb Bool.eqb orb].
  unfold push_segment. apply String.eqb_neq in H0, H1, H2.
  rewrite H0, H1, H2. reflexivity.
Qed.

(** X9.  The paths of the directives are not confined to the workspace:
    a path that climbs above the root with [..] and passes the ignore
    test is written where it points, in the parent of the workspace. *)
Theorem writeFile_leaves_the_workspace
    (E : Env) (w : World) (root name c : string) :
  workspaceFolders w = Some root ->
  segment name ->
  isIgnored ("../" ++ name) = false ->
  [".."; name] ∉ readonly w ->
  joinPath ("../" ++ name) = [".."; name] /\
  fst (_writeFile E ("../" ++ name) c w) = Ok ("Written to ../" ++ name) /\
  files (snd (_writeFile E ("../" ++ name) c w)) !! [".."; name] = Some c.
Proof.
  intros Hw Hn Hi Hro. pose proof (joinPath_parent name Hn) as Hj.
  split; [exact Hj|]. rewrite <- Hj in Hro.
  rewrite (writeFile_allowed E w root ("../" ++ name) c Hw Hi Hro).
  cbn [fst snd files]. split; [reflexivity|]. rewrite Hj. apply lookup_insert_eq.
Qed.

Lemma writeFile_leaves_the_workspace_witness :
  let E := Sample.env Sample.model_done in
  let w := Sample.workspace [] in
  joinPath "../outside.txt" = [".."; "outside.txt"] /\
  fst (_writeFile E "../outside.txt" "x" w) = Ok "Written to ../outside.txt" /\
  files (snd (_writeFile E "../outside.txt" "x" w)) !! [".."; "outside.txt"] = Some "x".
Proof.
  apply (writeFile_leaves_the_workspace (Sample.env Sample.model_done)
           (Sample.workspace []) "/ws" "outside.txt" "x").
  - reflexivity.
  - repeat split; discriminate.
  - reflexivity.
  - apply not_elem_of_empty.
Defined.

(** The entries of the root are the first segments of the files. *)
Lemma entries_In (w : World) (name : string) (ty : FileType) :
  In (name, ty) (entries [] w) <->
  exists k v, files w !! k = Some v /\ entry_of [] k = Some (name, ty).
Proof.
  unfold entries. rewrite <- list_elem_of_In, elem_of_remove_dups, list_elem_of_omap.
  split.
  - intros (k & Hk & He). apply list_elem_of_In, in_map_iff in Hk as ([k' v] & <- & Hkv).
    apply list_elem_of_In, elem_of_map_to_list in Hkv. eauto.
  - intros (k & v & Hk & He). exists k. split; [|exact He].
    apply list_elem_of_In, in_map_iff. exists (k, v). split; [reflexivity|].
    now apply list_elem_of_In, elem_of_map_to_list.
Qed.

(** A file of the root is an entry of the root. *)
Lemma entry_of_root_file (name : string) :
  name <> ".." -> entry_of [] [name] = Some (name, File).
Proof.
  intros H. unfold entry_of. cbn [below].
  now destruct (String.eqb_spec name "..").
Qed.

Lemma timestampOf_slash (iso : string) :
  has_char "/" (timestampOf iso) = has_char "/" iso.
Proof.
  unfold timestampOf. induction iso as [|x s IH]; [reflexivity|].
  cbn [map_chars has_char]. rewrite IH. f_equal.
  destruct (Ascii.eqb_spec x ":") as [->|]; [reflexivity|].
  destruct (Ascii.eqb_spec x ".") as [->|]; reflexivity.
Qed.

Lemma startsWith_longer (s x : string) : x <> "" -> startsWith s (s ++ x) = false.
Proof.
  intros Hx. destruct (startsWith s (s ++ x)) eqn:H; [|reflexivity].
  apply startsWith_true_iff in H as [r H]. apply (f_equal String.length) in H.
  rewrite !slength_app in H. destruct x; [congruence|]. cbn in H. lia.
Qed.

(** The name of a backup of a one-segment name, for a time stamp without
    slash, is one segment. *)
Lemma backup_name_segment (p ts : string) :
  has_char "/" p = false -> has_char "/" ts = false ->
  segment (p ++ ".bak." ++ ts).
Proof.
  intros Hp Ht. unfold segment. rewrite !has_char_app, Hp, Ht.
  split; [reflexivity|].
  assert (2 < String.length (p ++ ".bak." ++ ts)) as Hl
    by (rewrite !slength_app; cbn; lia).
  repeat split; intros H; rewrite H in Hl; cbn in Hl; lia.
Qed.

(** The code units are a consistent collation. *)
Lemma by_code_units_consistent : consistent Sample.by_code_units.
Proof.
  unfold Sample.by_code_units. split.
  - intros a b H. rewrite String.compare_antisym in H.
    destruct (String.compare b a); cbn in H; congruence.
  - intros a b c Hab Hbc.
    assert (String.le a b) as Lab
      by (apply Is_true_true; unfold String.leb; destruct (String.compare a b); congruence).
    assert (String.le b c) as Lbc
      by (apply Is_true_true; unfold String.leb; destruct (String.compare b c); congruence).
    pose proof (transitivity Lab Lbc) as Lac. apply Is_true_true in Lac.
    unfold String.leb in Lac. destruct (String.compare a c); congruence.
Qed.

(** X10.  Restoring undoes the write that came just before, for a file
    directly in the workspace root: when the file exists, the write and
    its backup go through, the collation of the host is consistent and
    puts the new backup after every other backup of the file that is
    listed, [writeFile] followed by [restoreFile] leaves the file with
    the content it had before the write, and the backup in place. *)
Theorem restore_undoes_the_last_write
    (E : Env) (w : World) (root p c old : string) :
  workspaceFolders w = Some root ->
  consistent (localeCompare E) ->
  segment p ->
  isIgnored p = false ->
  has_char "/" (clock E (ticks w)) = false ->
  let bak := p ++ ".bak." ++ timestampOf (clock E (ticks w)) in
  files w !! [p] = Some old ->
  [p] ∉ readonly w ->
  [bak] ∉ readonly w ->
  (forall name ty, In (name, ty) (entries [] w) ->
     startsWith name (p ++ ".bak.") = true -> name <> bak ->
     localeCompare E bak name = Gt) ->
  let run := (_writeFile E p c ;; _restoreFile E p)%gw w in
  fst run = Ok ("Restored " ++ dq ++ p ++ dq ++ " from backup.") /\
  files (snd run) !! [p] = Some old /\
  files (snd run) !! [bak] = Some old.
Proof.
  intros Hw Hcons Hp Hi Hclock bak Hf Hro Hbro Holder run.
  pose proof (joinPath_segment p Hp) as Hjp.
  assert (segment bak) as Hbs
    by (apply backup_name_segment; [apply Hp | now rewrite timestampOf_slash]).
  pose proof (joinPath_segment bak Hbs) as Hjb.
  assert (backupUri E w p = [bak]) as Hbu by exact Hjb.
  assert (p <> bak) as Hpb.
  { intros H. apply (f_equal String.length) in H. unfold bak in H.
    rewrite !slength_app in H. cbn in H. lia. }
  assert ([p] <> [bak]) as Hne by congruence.
  (* the world after the write *)
  rewrite <- Hjp in Hro, Hf.
  pose proof (writeFile_allowed E w root p c Hw Hi Hro) as Hwrite.
  rewrite (createBackup_made E p _ w old Hf) in Hwrite;
    [| rewrite Hbu, Hjp; now apply apart_segments | now rewrite Hbu].
  cbn [snd workspaceFolders files readonly ticks trace] in Hwrite.
  rewrite Hbu, Hjp in Hwrite.
  set (w1 := mkWorld (workspaceFolders w)
               (<[[p] := c]> (<[[bak] := old]> (prune [bak] (files w))))
               (readonly w) (S (ticks w)) _) in Hwrite.
  assert (run = _restoreFile E p w1) as Hrun
    by (unfold run, bind at 1; now rewrite Hwrite).
  rewrite Hrun. clear Hrun run.
  assert (files w1 !! [bak] = Some old) as Hbak.
  { cbn [files w1]. rewrite lookup_insert_ne by exact Hne. apply lookup_insert_eq. }
  assert (In (bak, File) (entries [] w1)) as Hlisted
    by (apply entries_In; exists [bak], old; split;
        [exact Hbak | apply entry_of_root_file, Hbs]).
  assert (startsWith bak (p ++ ".bak.") = true) as Hpre.
  { apply startsWith_true_iff. exists (timestampOf (clock E (ticks w))).
    unfold bak. now rewrite sapp_assoc. }
  destruct (restoreFile_copies_a_listed_backup E w1 root p bak File Hw Hlisted Hpre)
    as (latest & ty' & Hl & Hlp & Hmax & Hcopy).
  assert (latest = bak) as ->.
  { destruct (String.eqb_spec latest bak) as [|Hlb]; [assumption|]. exfalso.
    apply entries_In in Hl as (k & v & Hk & He).
    destruct (decide (k = [p])) as [->|Hkp].
    - rewrite entry_of_root_file in He by apply Hp.
      injection He as Hlat _. rewrite <- Hlat in Hlp.
      rewrite (startsWith_longer p ".bak.") in Hlp; discriminate.
    - destruct (decide (k = [bak])) as [->|Hkb].
      + rewrite entry_of_root_file in He by apply Hbs.
        injection He as Hlat _. congruence.
      + cbn [files w1] in Hk. rewrite !lookup_insert_ne in Hk by congruence.
        rewrite prune_lookup in Hk. destruct (under [bak] k); [discriminate|].
        apply (Hmax Hcons bak File Hlisted Hpre).
        apply (Holder latest ty'); [|exact Hlp|exact Hlb].
        apply entries_In. now exists k, v. }
  rewrite Hjb, Hjp in Hcopy. rewrite Hjp in Hro.
  destruct (restoreFile_made E w1 p bak old) as (Hok & Hfiles & _);
    [now rewrite Hjb, Hjp | now rewrite Hjb | rewrite Hjb, Hjp; apply apart_segments; congruence
    | now rewrite Hjp |].
  split; [exact Hok|]. rewrite Hfiles, Hjp. split.
  - apply lookup_insert_eq.
  - rewrite lookup_insert_ne by exact Hne. rewrite prune_lookup.
    assert (under [p] [bak] = false) as ->; [|exact Hbak].
    unfold under. cbn [below]. now destruct (String.eqb_spec p bak).
Qed.

(** Overwriting [a.ts], of which an older backup exists, then restoring,
    on a host that orders the names by their code units. *)
Lemma restore_undoes_the_last_write_witness :
  let E := Sample.host Sample.clock_still Sample.shell_fails Sample.model_done in
  let w := Sample.workspace
             [(["a.ts"], "v2"); (["a.ts.bak.2025-01-01T00-00-00-000Z"], "v1")] in
  let run := (_writeFile E "a.ts" "v3" ;; _restoreFile E "a.ts")%gw w in
  fst run = Ok ("Restored " ++ dq ++ "a.ts" ++ dq ++ " from backup.") /\
  files (snd run) !! ["a.ts"] = Some "v2" /\
  files (snd run) !! ["a.ts.bak.2026-11-03T10-00-00-000Z"] = Some "v2".
Proof.
  apply (restore_undoes_the_last_write
           (Sample.host Sample.clock_still Sample.shell_fails Sample.model_done)
           (Sample.workspace
              [(["a.ts"], "v2"); (["a.ts.bak.2025-01-01T00-00-00-000Z"], "v1")])
           "/ws" "a.ts" "v3" "v2").
  - reflexivity.
  - exact by_code_units_consistent.
  - repeat split; discriminate.
  - reflexivity.
  - reflexivity.
  - reflexivity.
  - apply not_elem_of_empty.
  - apply not_elem_of_empty.
  - intros name ty Hin. vm_compute in Hin.
    destruct Hin as [[= <- <-]|[[= <- <-]|[]]]; [discriminate | reflexivity].
Defined.

(** The collation decides which backup is the latest: on a host that
    puts [,] after [-], an entry of the root named like a backup comes
    after the backup just made, and it is the one restored. *)
Example restore_follows_the_collation :
  let comma_last (a b : string) : comparison :=
    if includes a "," then (if includes b "," then Eq else Gt)
    else if includes b "," then Lt else String.compare a b in
  let E := mkEnv Sample.clock_still Sample.shell_fails Sample.model_done "SYSTEM"
             comma_last Sample.accepts in
  let w := Sample.workspace [(["a.ts"], "v2"); (["a.ts.bak.2026,old"], "stale")] in
  let run := (_writeFile E "a.ts" "v3" ;; _restoreFile E "a.ts")%gw w in
  fst run = Ok ("Restored " ++ dq ++ "a.ts" ++ dq ++ " from backup.") /\
  files (snd run) !! ["a.ts"] = Some "stale".
Proof. vm_compute. repeat split. Qed.

End PathsAndUndo.

(* ===================================================================== *)
(** ** The history and the events of a turn *)
(* ===================================================================== *)

Section TurnFacts.
Import Js Regex Fs Gateway Spec Shape Agent.

(** X11.  The directives of a reply are all run, in the order of the
    text, whatever happens to each: every directive is dispatched in the
    world that the one before it left; it posts a [running] event, then a
    [success] event with the result of its tool or an [error] event with
    the message of what the tool threw, and adds to the history of the
    session one [System] message that names its kind, with that result or
    that message.  So the history gains exactly one message per
    directive, two events are posted per directive, all of them tool
    calls of the session, and the histories of the other sessions and the
    count of the calls of the model are not touched. *)
Theorem every_directive_is_answered
    (E : Env) (sid answer : string) (st : State) :
  let st' := fold_left (run_tool E sid) (tool_matches answer) st in
  exists outs evs,
    answered E sid (world st) (tool_matches answer) outs evs (world st') /\
    historyOf sid st' = (historyOf sid st ++ outs)%list /\
    posted st' = (posted st ++ evs)%list /\
    List.length outs = List.length (tool_matches answer) /\
    List.length evs = 2 * List.length (tool_matches answer) /\
    Forall (fun ev => exists code path status result,
                        ev = ToolCall code path status result sid) evs /\
    (forall sid', sid <> sid' ->
       sessionHistories st' !! sid' = sessionHistories st !! sid') /\
    fetches st' = fetches st.
Proof.
  intros st'.
  destruct (run_tools_answered E sid (tool_matches answer) st)
    as (outs & evs & Ha & Hh & Ho & Hp & Hf).
  destruct (answered_shape E sid _ _ _ _ _ Ha) as (L1 & L2 & _ & _).
  exists outs, evs. repeat (split; [assumption|]). split; [|split; assumption].
  clear -Ha. induction Ha; repeat constructor; eauto.
Qed.

(** A reply with a directive that fails between two that succeed. *)
Example failing_directive_does_not_stop_the_others :
  let E := Sample.env Sample.model_done in
  let answer :=
    "<tool code=" ++ dq ++ "write_file" ++ dq ++ " path=" ++ dq ++ "a.ts" ++ dq ++ ">1</tool>"
    ++ "<tool code=" ++ dq ++ "read_file" ++ dq ++ " path=" ++ dq ++ "missing" ++ dq ++ "></tool>"
    ++ "<tool code=" ++ dq ++ "read_file" ++ dq ++ " path=" ++ dq ++ "a.ts" ++ dq ++ "></tool>" in
  historyOf "s" (fold_left (run_tool E "s") (tool_matches answer)
                   (Sample.fresh (Sample.workspace [])))
  = [ mkMessage "System" ("Tool Output (write_file):" ++ nl ++ "Written to a.ts");
      mkMessage "System" "Error (read_file): FileNotFound";
      mkMessage "System" ("Tool Output (read_file):" ++ nl ++ "1") ].
Proof. reflexivity. Qed.

(** What the loop adds to the history and to the events. *)
Lemma loop_trace (E : Env) (sid : string) (remaining n : nat) (st : State) :
  exists suffix evs,
    historyOf sid (stateOf (loop E sid remaining n st))
    = (historyOf sid st ++ suffix)%list /\
    (forall sid', sid <> sid' ->
       sessionHistories (stateOf (loop E sid remaining n st)) !! sid'
       = sessionHistories st !! sid') /\
    posted (stateOf (loop E sid remaining n st)) = (posted st ++ evs)%list /\
    Forall (turn_event sid) evs.
Proof.
  revert n st; induction remaining as [|r IH]; intros n st; cbn [loop].
  - exists [], []. unfold stateOf; cbn [snd]. rewrite !app_nil_r.
    repeat split; constructor.
  - destruct (ok _).
    2:{ exists [], []. unfold stateOf; cbn [negb snd]. rewrite !app_nil_r.
        repeat split; constructor. }
    cbn [negb].
    set (answer := text _).
    set (st1 := mkState (world st) (sessionHistories st) (posted st) (S (fetches st))).
    set (st2 := post (ReceiveMessage (narrative answer) sid)
                  (push sid (mkMessage "Assistant" answer) st1)).
    destruct (run_tools_answered E sid (tool_matches answer) st2)
      as (outs & evs & Ha & Hh & Ho & Hp & _).
    destruct (answered_shape E sid _ _ _ _ _ Ha) as (_ & _ & _ & He).
    assert (historyOf sid st2 = (historyOf sid st ++ [mkMessage "Assistant" answer])%list)
      as Hh2 by (unfold st2, post, push, historyOf; cbn [sessionHistories];
                 now rewrite lookup_insert_eq).
    assert (forall sid', sid <> sid' ->
              sessionHistories st2 !! sid' = sessionHistories st !! sid') as Ho2
      by (intros sid' Hne; unfold st2, post, push; cbn [sessionHistories];
          now rewrite lookup_insert_ne).
    assert (posted st2 = (posted st ++ [ReceiveMessage (narrative answer) sid])%list)
      as Hp2 by reflexivity.
    clear Ha.
    destruct (tool_matches answer) as [|m ms] eqn:Hm; cbn [negb].
    + exists [mkMessage "Assistant" answer], [ReceiveMessage (narrative answer) sid].
      unfold stateOf; cbn [snd fold_left]. fold st1 st2.
      split; [exact Hh2|]. split; [exact Ho2|]. split; [exact Hp2|].
      repeat constructor.
    + destruct (IH (S n) (fold_left (run_tool E sid) (m :: ms) st2))
        as (suffix & evs' & Hh' & Ho' & Hp' & He').
      exists (mkMessage "Assistant" answer :: outs ++ suffix)%list,
        (ReceiveMessage (narrative answer) sid :: evs ++ evs')%list.
      fold st1 st2. split; [|split; [|split]].
      * rewrite Hh', Hh, Hh2, <- !app_assoc. reflexivity.
      * intros sid' Hne. now rewrite (Ho' sid' Hne), (Ho sid' Hne), (Ho2 sid' Hne).
      * rewrite Hp', Hp, Hp2, <- !app_assoc. reflexivity.
      * constructor; [reflexivity|]. apply Forall_app. now split.
Qed.

Lemma enter_effects (msg sid : string) (st : State) :
  historyOf sid (enter msg sid st) = (historyOf sid st ++ [mkMessage "User" msg])%list /\
  (forall sid', sid <> sid' ->
     sessionHistories (enter msg sid st) !! sid' = sessionHistories st !! sid') /\
  posted (enter msg sid st) = (posted st ++ [StatusEvent true sid])%list /\
  world (enter msg sid st) = world st.
Proof.
  split; [unfold historyOf; now rewrite enter_history|].
  unfold enter, post, push. cbn [sessionHistories posted world].
  destruct (sessionHistories st !! sid) eqn:Hs; cbn [sessionHistories posted world];
    repeat split; intros sid' Hne; now rewrite !lookup_insert_ne.
Qed.






Lemma turn_history (E : Env) (msg sid : string) (st : State) :
  (exists suffix,
     historyOf sid (stateOf (_handleMessage E msg sid st))
     = (historyOf sid st ++ mkMessage "User" msg :: suffix)%list) /\
  (forall sid', sid <> sid' ->
     sessionHistories (stateOf (_handleMessage E msg sid st)) !! sid'
     = sessionHistories st !! sid').
Proof.
  rewrite handleMessage_state.
  destruct (loop_trace E sid maxLoops 0 (enter msg sid st))
    as (suffix & evs & Hh & Ho & _ & _).
  destruct (enter_effects msg sid st) as (Hh0 & Ho0 & _ & _).
  split.
  - exists suffix. rewrite historyOf_post, Hh, Hh0, <- app_assoc. reflexivity.
  - intros sid' Hne. rewrite lookup_post, (Ho sid' Hne). exact (Ho0 sid' Hne).
Qed.

(** X12.  A turn only appends to the history of its session, starting
    with the message of the user, and leaves the histories of all other
    sessions as they were. *)
Theorem turn_appends_to_its_own_history
    (E : Env) (msg sid : string) (st : State) :
  let st' := stateOf (_handleMessage E msg sid st) in
  (exists suffix,
     historyOf sid st' = (historyOf sid st ++ mkMessage "User" msg :: suffix)%list) /\
  (forall sid', sid <> sid' ->
     sessionHistories st' !! sid' = sessionHistories st !! sid').
Proof. intros st'. apply turn_history. Qed.

(** X13.  The working indicator is switched on once, at the start of the
    turn, and off once, at its end, also when the call of the model
    fails: the events of a turn are a status event [working], events of
    the session that are no status events, and a status event [idle]. *)
Theorem status_events_bracket_the_turn
    (E : Env) (msg sid : string) (st : State) :
  exists evs,
    posted (stateOf (_handleMessage E msg sid st))
    = (posted st ++ StatusEvent true sid :: evs ++ [StatusEvent false sid])%list /\
    Forall (turn_event sid) evs.
Proof.
  rewrite handleMessage_state.
  destruct (loop_trace E sid maxLoops 0 (enter msg sid st))
    as (suffix & evs & _ & _ & Hp & He).
  destruct (enter_effects msg sid st) as (_ & _ & Hp0 & _).
  exists evs. split; [|exact He].
  rewrite posted_post, Hp, Hp0, <- !app_assoc. reflexivity.
Qed.

(** A reply that is not a success ends the loop with an error. *)
Lemma loop_fails (E : Env) (sid : string) (remaining n : nat) (st : State) :
  let first := model E (fetches st) (fullMessage E (historyOf sid st)) in
  0 < remaining -> ok first = false ->
  loop E sid remaining n st
  = (Err (ModelError (status first)), S n,
     mkState (world st) (sessionHistories st) (posted st) (S (fetches st))).
Proof.
  intros first Hpos Hok. destruct remaining as [|r]; [lia|].
  cbn [loop]. fold (historyOf sid st). fold first. now rewrite Hok.
Qed.

(** X14.  When the endpoint of the model answers with a status that is
    not a success, the turn stops after that one call: no directive is
    run and the world is left as it was, the history gains the message of
    the user only, and the webview receives, after the two status events,
    one message that carries [API] and the status. *)
Theorem model_error_ends_the_turn (E : Env) (msg sid : string) (st : State) :
  let first := model E (fetches st)
                 (fullMessage E (historyOf sid st ++ [mkMessage "User" msg])%list) in
  ok first = false ->
  let st' := onDidReceiveMessage E (SendMessage msg sid) st in
  world st' = world st /\
  fetches st' = S (fetches st) /\
  historyOf sid st' = (historyOf sid st ++ [mkMessage "User" msg])%list /\
  posted st'
  = (posted st ++
     [ StatusEvent true sid; StatusEvent false sid;
       ReceiveMessage ("**Error:** Error: API " ++ pretty (status first)) sid ])%list.
Proof.
  intros first Hok st'.
  destruct (enter_effects msg sid st) as (Hh & _ & Hp & Hw).
  assert (first = model E (fetches (enter msg sid st))
                    (fullMessage E (historyOf sid (enter msg sid st)))) as Hfirst
    by (rewrite Hh, enter_fetches; reflexivity).
  assert (0 < maxLoops) as Hpos by (unfold maxLoops; lia).
  rewrite Hfirst in Hok.
  pose proof (loop_fails E sid maxLoops 0 (enter msg sid st) Hpos Hok) as Hl.
  rewrite <- Hfirst in Hl.
  subst st'. unfold onDidReceiveMessage, _handleMessage. rewrite Hl.
  split; [exact Hw|]. split; [exact (f_equal S (enter_fetches msg sid st))|].
  split; [exact Hh|].
  rewrite !posted_post. cbn [posted message]. rewrite Hp, <- !app_assoc. reflexivity.
Qed.

Lemma model_error_ends_the_turn_witness :
  let st := Sample.fresh (Sample.workspace [(["a.ts"], "v1")]) in
  let st' := onDidReceiveMessage (Sample.env Sample.model_down)
               (SendMessage "hi" "s") st in
  world st' = world st /\
  fetches st' = 1 /\
  historyOf "s" st' = [mkMessage "User" "hi"] /\
  posted st'
  = [ StatusEvent true "s"; StatusEvent false "s";
      ReceiveMessage "**Error:** Error: API 503" "s" ].
Proof.
  apply (model_error_ends_the_turn (Sample.env Sample.model_down) "hi" "s"
           (Sample.fresh (Sample.workspace [(["a.ts"], "v1")]))).
  reflexivity.
Defined.

(** X15.  Clearing or deleting a session touches neither the world, nor
    the events, nor the other sessions, and makes the next turn of the
    session start afresh: the history of that turn begins with the new
    message of the user, the earlier messages are gone. *)
Theorem cleared_session_starts_afresh
    (E : Env) (req : Request) (msg sid : string) (st : State) :
  req = ClearSession sid \/ req = DeleteSession sid ->
  let st1 := onDidReceiveMessage E req st in
  world st1 = world st /\
  posted st1 = posted st /\
  (forall sid', sid <> sid' ->
     sessionHistories st1 !! sid' = sessionHistories st !! sid') /\
  exists suffix,
    historyOf sid (stateOf (_handleMessage E msg sid st1)) = mkMessage "User" msg :: suffix.
Proof.
  intros Hreq st1.
  assert (historyOf sid st1 = [] /\ world st1 = world st /\ posted st1 = posted st /\
          forall sid', sid <> sid' ->
            sessionHistories st1 !! sid' = sessionHistories st !! sid')
    as (Hh & Hw & Hp & Ho).
  { subst st1. destruct Hreq as [-> | ->]; unfold onDidReceiveMessage, historyOf;
      cbn [sessionHistories world posted].
    - rewrite lookup_insert_eq. repeat split.
      intros sid' Hne. now rewrite lookup_insert_ne.
    - rewrite lookup_delete_eq. repeat split.
      intros sid' Hne. now rewrite lookup_delete_ne. }
  split; [exact Hw|]. split; [exact Hp|]. split; [exact Ho|].
  destruct (turn_history E msg sid st1) as [[suffix Hs] _].
  exists suffix. now rewrite Hs, Hh.
Qed.

Lemma cleared_session_starts_afresh_witness :
  let E := Sample.env Sample.model_done in
  let st := stateOf (_handleMessage E "first" "s" (Sample.fresh (Sample.workspace []))) in
  let st1 := onDidReceiveMessage E (ClearSession "s") st in
  world st1 = world st /\
  posted st1 = posted st /\
  (forall sid', "s" <> sid' ->
     sessionHistories st1 !! sid' = sessionHistories st !! sid') /\
  exists suffix,
    historyOf "s" (stateOf (_handleMessage E "second" "s" st1))
    = mkMessage "User" "second" :: suffix.
Proof.
  apply (cleared_session_starts_afresh (Sample.env Sample.model_done)
           (ClearSession "s") "second" "s").
  left. reflexivity.
Defined.

Lemma run_tool_world (E : Env) (sid : string) (st : State) (m : ToolMatch) :
  world (run_tool E sid st m) = snd (dispatch E m (world st)).
Proof.
  unfold run_tool. cbn [world post].
  now destruct (dispatch E m (world st)) as [[r|e] w'].
Qed.

Lemma run_tools_read (E : Env) (sid : string) (ms : list ToolMatch) (st : State) :
  Forall (fun m => ~ In (Regex.code m)
                     ["write_file"; "replace_lines"; "restore_file"; "run_command"]) ms ->
  files (world (fold_left (run_tool E sid) ms st)) = files (world st).
Proof.
  intros Hms. revert st. induction Hms as [|m ms Hm _ IH]; intros st;
    cbn [fold_left]; [reflexivity|].
  rewrite IH, run_tool_world. now apply dispatch_reads.
Qed.

Lemma loop_reads (E : Env) (sid : string) (remaining n : nat) (st : State) :
  (forall i prompt,
     Forall (fun m => ~ In (Regex.code m)
                        ["write_file"; "replace_lines"; "restore_file"; "run_command"])
       (tool_matches (text (model E i prompt)))) ->
  files (world (stateOf (loop E sid remaining n st))) = files (world st).
Proof.
  intros Hm. revert n st. induction remaining as [|r IH]; intros n st;
    cbn [loop]; [reflexivity|].
  destruct (ok _); cbn [negb]; [|reflexivity].
  match goal with |- context [fold_left (run_tool E sid) ?ms ?s] =>
    pose proof (run_tools_read E sid ms s (Hm _ _)) as Hk
  end.
  destruct (tool_matches _); cbn [negb]; [exact Hk|].
  rewrite IH. exact Hk.
Qed.

(** X16.  A turn in which the model only looks changes no file: when no
    reply holds a [write_file], [replace_lines], [restore_file] or
    [run_command] directive, the files after the turn are the files
    before it, however many replies the turn consumes. *)
Theorem turn_of_reads_changes_no_file
    (E : Env) (msg sid : string) (st : State) :
  (forall i prompt,
     Forall (fun m => ~ In (Regex.code m)
                        ["write_file"; "replace_lines"; "restore_file"; "run_command"])
       (tool_matches (text (model E i prompt)))) ->
  files (world (stateOf (_handleMessage E msg sid st))) = files (world st).
Proof.
  intros Hm. rewrite handleMessage_state, world_post.
  rewrite (loop_reads E sid maxLoops 0 (enter msg sid st) Hm).
  destruct (enter_effects msg sid st) as (_ & _ & _ & Hw). now rewrite Hw.
Qed.

Lemma turn_of_reads_changes_no_file_witness :
  let st := Sample.fresh (Sample.workspace [(["a.ts"], "v1"); (["b.ts"], "b")]) in
  let out := _handleMessage (Sample.env Sample.model_reads) "go" "s" st in
  files (world (stateOf out)) = files (world st).
Proof.
  apply (turn_of_reads_changes_no_file (Sample.env Sample.model_reads) "go" "s"
           (Sample.fresh (Sample.workspace [(["a.ts"], "v1"); (["b.ts"], "b")]))).
  intros [|i] prompt; vm_compute; repeat constructor;
    intros H; repeat (destruct H as [H|H]; [discriminate H|]); exact H.
Defined.

(** The turn of that witness runs its two directives and ends on the
    second reply. *)
Example turn_of_reads :
  let st := Sample.fresh (Sample.workspace [(["a.ts"], "v1"); (["b.ts"], "b")]) in
  let out := _handleMessage (Sample.env Sample.model_reads) "go" "s" st in
  loopCountOf out = 2 /\
  List.length (historyOf "s" (stateOf out)) = 5 /\
  In (mkMessage "System" ("Tool Output (read_file):" ++ nl ++ "v1"))
    (historyOf "s" (stateOf out)).
Proof. vm_compute. repeat split. tauto. Qed.

End TurnFacts.

(* ===================================================================== *)
(** ** The two providers *)
(* ===================================================================== *)

Section TwoProviders.
Import Js Regex Fs Gateway Spec Shape.

(** X17.  The gateway of the earlier provider does to the world what the
    gateway of the later one does, and fails in the same cases for the
    same reason (the wording of what is thrown apart, see
    [Earlier.message]): [_writeFile], with its backup written in place,
    leaves the same world and only words its confirmation otherwise;
    [_readFile] runs the same steps; [_runCommand] leaves the same world
    and resolves with the same text, except for the words that stand for
    an empty output. *)
Theorem earlier_gateway_agrees (E : Env) (p c : string) (w : World) :
  Earlier._writeFile E p c w
  = match Gateway._writeFile E p c w with
    | (Ok t, w') => (Ok (t ++ " (Backup created if existed)"), w')
    | (Err e, w') => (Err e, w')
    end /\
  Earlier._readFile p w = Gateway._readFile p w /\
  snd (Earlier._runCommand E c w) = snd (Gateway._runCommand E c w) /\
  (fst (Gateway._runCommand E c w) <> Ok "Done" ->
   fst (Earlier._runCommand E c w) = fst (Gateway._runCommand E c w)).
Proof.
  split; [|split; [reflexivity|]].
  - unfold Earlier._writeFile, Gateway._writeFile, _createBackup, bind, requireWorkspace, throw.
    destruct (workspaceFolders w); [|reflexivity].
    destruct (isIgnored p); [reflexivity|].
    destruct (swallow _ w) as [r w1]. destruct r; [|reflexivity].
    destruct (writeFile (joinPath p) c w1) as [[u|e] w2]; [|reflexivity].
    unfold swallow, record, ret. cbn [fst snd]. now rewrite sapp_assoc.
  - unfold Earlier._runCommand, Gateway._runCommand, bind, requireWorkspace.
    destruct (workspaceFolders w) as [root|]; [|split; [reflexivity|]; intros _; reflexivity].
    destruct (execThrows E c); [split; [reflexivity|]; intros _; reflexivity|].
    destruct (shell E c root w) as [o fs]. destruct (exec_err o); cbn [fst snd].
    + split; reflexivity.
    + split; [reflexivity|]. destruct (String.eqb (combinedOutput o) ""); congruence.
Qed.

End TwoProviders.

(* ===================================================================== *)
(** ** Replacing and restoring, from the directive to the file *)
(* ===================================================================== *)

Section EndToEnd.
Import Js Regex Fs Gateway Spec Shape.

(** X18.  A [replace_lines] directive does what it says when the
    replacement text holds no dollar sign: with a body whose two regions
    are read back as written, on a writable file in which the search text
    occurs, the first occurrence of the search text is replaced by the
    replacement text and the rest of the file is kept; and the backup,
    when its name lies apart from the path and can be written, holds the
    file as it was. *)
Theorem replace_lines_end_to_end
    (E : Env) (w : World)
    (root p pre search mid replacement post original before after : string) :
  workspaceFolders w = Some root ->
  includes pre "<search>" = false ->
  includes search "</search>" = false ->
  includes (pre ++ "<search>" ++ search ++ "</search>" ++ mid) "<replace>" = false ->
  includes replacement "</replace>" = false ->
  has_char "$" replacement = false ->
  files w !! joinPath p = Some original ->
  find search original = Some (before, after) ->
  joinPath p ∉ readonly w ->
  let m := mkToolMatch "replace_lines" (Some p)
             (replace_body pre search mid replacement post) in
  let w' := snd (Agent.dispatch E m w) in
  original = before ++ search ++ after /\
  fst (Agent.dispatch E m w) = Ok ("Successfully updated " ++ p) /\
  files w' !! joinPath p = Some (before ++ replacement ++ after) /\
  (apart (joinPath p) (backupUri E w p) = true -> backupUri E w p ∉ readonly w ->
   files w' !! backupUri E w p = Some original).
Proof.
  intros Hw Hpre Hs Hgap Hr Hd Hf Hfind Hro m w'.
  destruct (match_regions_of_body pre search mid replacement post Hpre Hs Hgap Hr)
    as [Hms Hmr].
  assert (includes original search = true) as Hi
    by (unfold includes; now rewrite Hfind).
  split; [now apply find_sound|].
  assert (Agent.dispatch E m w
          = _replaceLines E p (replace_body pre search mid replacement post) w) as Hdis
    by reflexivity.
  subst w'. rewrite Hdis. clear Hdis m.
  split; [|split].
  - now rewrite (replaceLines_run E w root p _ search replacement original
                   Hw Hms Hmr Hf Hi Hro).
  - rewrite (replaceLines_run E w root p _ search replacement original
               Hw Hms Hmr Hf Hi Hro).
    cbn [snd files].
    assert (Js.replace original search replacement = before ++ replacement ++ after) as ->
      by (unfold Js.replace; rewrite Hfind, (getSubstitution_literal _ _ _ _ Hd);
          reflexivity).
    apply lookup_insert_eq.
  - intros Ha Hbw.
    now destruct (replaceLines_backup E w root p _ search replacement original
                    Hw Hms Hmr Hf Hi Hro Ha Hbw) as (_ & Hbak & _).
Qed.

Lemma replace_lines_end_to_end_witness :
  let E := Sample.env Sample.model_done in
  let w := Sample.workspace [(["a.ts"], "let x = 1; let y = 1;")] in
  let m := mkToolMatch "replace_lines" (Some "a.ts")
             (replace_body Fs.nl "= 1" Fs.nl "= 2" Fs.nl) in
  fst (Agent.dispatch E m w) = Ok "Successfully updated a.ts" /\
  files (snd (Agent.dispatch E m w)) !! ["a.ts"] = Some "let x = 2; let y = 1;" /\
  files (snd (Agent.dispatch E m w)) !! ["a.ts.bak.2026-11-03T10-00-00-000Z"]
  = Some "let x = 1; let y = 1;".
Proof.
  intros E w m.
  destruct (replace_lines_end_to_end E w "/ws" "a.ts" Fs.nl "= 1" Fs.nl "= 2" Fs.nl
              "let x = 1; let y = 1;" "let x " "; let y = 1;"
              eq_refl eq_refl eq_refl eq_refl eq_refl eq_refl eq_refl eq_refl
              (not_elem_of_empty _))
    as (_ & Hok & Hfile & Hbak).
  split; [exact Hok|]. split; [exact Hfile|].
  exact (Hbak eq_refl (not_elem_of_empty _)).
Defined.

(** A path that normalisation shortens: the name of the backup lies below
    the file, the copy is refused, silently, and the file is rewritten
    without a backup. *)
Example replace_lines_without_backup :
  let E := Sample.env Sample.model_done in
  let w := Sample.workspace [(["a.ts"], "x = 1")] in
  let m := mkToolMatch "replace_lines" (Some "a.ts/.")
             "<search>1</search><replace>2</replace>" in
  backupUri E w "a.ts/." = ["a.ts"; "..bak.2026-11-03T10-00-00-000Z"] /\
  fst (Agent.dispatch E m w) = Ok "Successfully updated a.ts/." /\
  map_to_list (files (snd (Agent.dispatch E m w))) = [(["a.ts"], "x = 2")].
Proof. vm_compute. repeat split. Qed.

(** X19.  [restoreFile] works on the entries of the workspace root.  When
    no entry bears a name that starts with the path and [.bak.], it fails
    with [NoBackupFound] and touches no file.  Otherwise it picks, among
    the entries of that kind, one that no other comes after in the
    collation of the host (taken to be consistent); when that entry is a
    file, lies apart from the path and the path can be written, the file
    is copied over the path: the path holds its content, what lay below
    the path is gone, and nothing else changes. *)
Theorem restoreFile_picks_by_the_collation
    (E : Env) (w : World) (root p : string) :
  workspaceFolders w = Some root ->
  consistent (localeCompare E) ->
  ((forall name ty, In (name, ty) (entries [] w) ->
      startsWith name (p ++ ".bak.") = false) ->
   fst (_restoreFile E p w) = Err (NoBackupFound p) /\
   files (snd (_restoreFile E p w)) = files w) /\
  (forall name ty,
     In (name, ty) (entries [] w) -> startsWith name (p ++ ".bak.") = true ->
     exists latest ty',
       In (latest, ty') (entries [] w) /\
       startsWith latest (p ++ ".bak.") = true /\
       (forall name' ty'', In (name', ty'') (entries [] w) ->
          startsWith name' (p ++ ".bak.") = true ->
          localeCompare E name' latest <> Gt) /\
       (forall v, files w !! joinPath latest = Some v ->
          apart (joinPath latest) (joinPath p) = true ->
          joinPath p ∉ readonly w ->
          let w' := snd (_restoreFile E p w) in
          fst (_restoreFile E p w) = Ok ("Restored " ++ dq ++ p ++ dq ++ " from backup.") /\
          files w' !! joinPath p = Some v /\
          (forall k, under (joinPath p) k = false -> files w' !! k = files w !! k) /\
          (forall k, under (joinPath p) k = true -> k <> joinPath p ->
                     files w' !! k = None))).
Proof.
  intros Hw Hcons. split.
  - intros Hnone. now rewrite (restoreFile_no_backup E w root p Hw Hnone).
  - intros name ty Hin Hs.
    destruct (restoreFile_copies_a_listed_backup E w root p name ty Hw Hin Hs)
      as (latest & ty' & H1 & H2 & H3 & Hrun).
    exists latest, ty'. split; [exact H1|]. split; [exact H2|].
    split; [exact (H3 Hcons)|].
    intros v Hv Ha Hro w'. subst w'.
    destruct (restoreFile_made E w p latest v Hrun Hv Ha Hro) as (Hok & Hfiles & _).
    split; [exact Hok|]. rewrite Hfiles. split; [apply lookup_insert_eq|]. split.
    + intros k Hu. rewrite lookup_insert_ne by (intros <-; now rewrite under_refl in Hu).
      now rewrite prune_lookup, Hu.
    + intros k Hu Hk. rewrite lookup_insert_ne by congruence.
      now rewrite prune_lookup, Hu.
Qed.

Lemma restoreFile_picks_by_the_collation_witness :
  let E := Sample.env Sample.model_done in
  let w := Sample.workspace
             [ (["a.ts"], "v3");
               (["a.ts.bak.2026-11-03T10-00-00-000Z"], "v1");
               (["a.ts.bak.2026-11-03T10-00-00-001Z"], "v2") ] in
  fst (_restoreFile E "a.ts" w) = Ok ("Restored " ++ dq ++ "a.ts" ++ dq ++ " from backup.") /\
  files (snd (_restoreFile E "a.ts" w)) !! ["a.ts"] = Some "v2".
Proof.
  intros E w.
  destruct (restoreFile_picks_by_the_collation E w "/ws" "a.ts" eq_refl
              by_code_units_consistent)
    as [_ Hsome].
  destruct (Hsome "a.ts.bak.2026-11-03T10-00-00-000Z" File)
    as (latest & ty' & Hl & Hp & Hmax & Hcopy).
  - vm_compute. tauto.
  - reflexivity.
  - assert (latest = "a.ts.bak.2026-11-03T10-00-00-001Z") as ->.
    { pose proof (Hmax "a.ts.bak.2026-11-03T10-00-00-001Z" File) as Hge.
      vm_compute in Hl. destruct Hl as [[= <- <-]|[[= <- <-]|[[= <- <-]|[]]]].
      - discriminate Hp.
      - reflexivity.
      - exfalso. apply Hge; [vm_compute; tauto | reflexivity | reflexivity]. }
    destruct (Hcopy "v2" eq_refl eq_refl (not_elem_of_empty _)) as (Hok & Hfile & _).
    split; [exact Hok | exact Hfile].
Defined.

End EndToEnd.
